(** * The sliding-window rate limiter of scanner-app (rate-limiter.js)

    A shallow embedding of the limiter: the [kv] adapter over the Redis
    client, [checkRateLimit], [recordRequest], [getRateLimitStatus],
    [countRequestsInWindow], [getOldestRequestTime] and
    [getClientIdentifier]; of the request handlers of server.js that call
    it; and of the pure functions of the browser side ([classifyRisk],
    [extractThreats], [normalizeURL]); followed by the properties
    established for them.

    Modelling conventions.
    - JavaScript numbers that hold timestamps and counts are integers
      ([Z]); on integers [Math.ceil] is the identity and [Math.floor(x /
      1000)] is [x / 1000] ([Z.div] rounds towards minus infinity, for a
      positive divisor, as [Math.floor] does).
    - A template literal [`${n}`] of an integer is its decimal rendering,
      stdpp's [pretty] on [Z] (a leading "-" for negatives).
    - [async] functions are functions in the monad [M]: a state monad over
      the environment (clock, connection, Redis data) with exceptions; the
      state survives a throw, as the effects of a rejected promise do.
    - Redis is external to the repository. Its sorted-set and expiry
      commands are modelled after the Redis documentation, at the level of
      detail the limiter can observe. *)

From Stdlib Require Import ZArith Ascii String List Lia.
From stdpp Require Import base option list sorting gmap strings pretty fin_maps.

Local Open Scope Z_scope.

(** ** Outcomes and the effect monad *)

(** What a rejected promise carries. *)
Inductive exn :=
  | ClientClosedError   (* a command issued on a client that is not open *)
  | SocketError         (* the connection failed while the command ran *)
  | ReplyError.         (* Redis answered with an error reply *)

Inductive outcome (A : Type) :=
  | Return (a : A)
  | Throw (e : exn).
Arguments Return {A} a.
Arguments Throw {A} e.

(** ** Redis data: sorted sets with key expiry *)

(** A sorted set maps each member to its score; members are unique. *)
Abbreviation zset := (gmap string Z).

(** One element of a reply that carries scores ([{ value, score }]). *)
Record scored := Scored { value : string; score : Z }.

(** [zsets] holds the sorted sets by key, [expires] the absolute time in
    milliseconds at which a key with a time-to-live runs out. *)
Record db := Db {
  zsets : gmap string zset;
  expires : gmap string Z
}.

Definition empty_db : db := Db ∅ ∅.

(** A key whose time-to-live ran out is gone for every command, whether or
    not the server has reclaimed it yet.  Redis treats a key as expired
    once the clock is strictly past its deadline. *)
Definition expired (clk : Z) (d : db) (key : string) : bool :=
  match expires d !! key with
  | Some deadline => deadline <? clk
  | None => false
  end.

Definition live (clk : Z) (d : db) (key : string) : option zset :=
  if expired clk d key then None else zsets d !! key.

(** Score bounds and indexes of range commands: a number, ['+inf'] or
    ['-inf']. *)
Inductive bound :=
  | Num (z : Z)
  | PosInf
  | NegInf.

Definition above (lo : bound) (s : Z) : bool :=
  match lo with Num z => z <=? s | PosInf => false | NegInf => true end.

Definition below (hi : bound) (s : Z) : bool :=
  match hi with Num z => s <=? z | PosInf => true | NegInf => false end.

Definition in_range (lo hi : bound) (s : Z) : bool := above lo s && below hi s.

(** Rank order of a sorted set: by score, ties by member, bytewise. *)
Definition rank_leb (a b : string * Z) : bool :=
  (a.2 <? b.2) || ((a.2 =? b.2) && String.leb a.1 b.1).

Definition rank_le (a b : string * Z) : Prop := rank_leb a b.

Definition ranked (m : zset) : list (string * Z) :=
  merge_sort rank_le (map_to_list m).

Definition to_scored (p : string * Z) : scored := Scored p.1 p.2.

(** ZADD key score member: add the member or update its score.  The reply
    counts the members that were new.  An expired key starts afresh,
    without a time-to-live; a live one keeps the one it has. *)
Definition ZADD (clk : Z) (key : string) (sc : Z) (member : string) (d : db)
  : Z * db :=
  let cur := default ∅ (live clk d key) in
  let added := match cur !! member with Some _ => 0 | None => 1 end in
  let exps := if expired clk d key then delete key (expires d) else expires d in
  (added, Db (<[key := <[member := sc]> cur]> (zsets d)) exps).

(** ZCOUNT key min max: how many members have their score in the range. *)
Definition ZCOUNT (clk : Z) (key : string) (lo hi : bound) (d : db) : Z :=
  Z.of_nat (size (filter (λ p : string * Z, in_range lo hi p.2)
                         (default ∅ (live clk d key)))).

(** ZRANGEBYSCORE key min max [LIMIT offset count]: the members in the
    range in rank order; a negative count means no limit. *)
Definition ZRANGEBYSCORE (clk : Z) (key : string) (lo hi : bound)
    (limit : option (Z * Z)) (d : db) : list (string * Z) :=
  let hits := filter (λ p : string * Z, in_range lo hi p.2)
                     (ranked (default ∅ (live clk d key))) in
  match limit with
  | None => hits
  | Some (offset, cnt) =>
      let rest := drop (Z.to_nat offset) hits in
      if cnt <? 0 then rest else take (Z.to_nat cnt) rest
  end.

(** The positions [start..stop] of a list, both inclusive and zero-based;
    a negative index counts from the end. *)
Definition rank_slice {A} (l : list A) (start stop : Z) : list A :=
  let n := Z.of_nat (length l) in
  let start := if start <? 0 then Z.max 0 (start + n) else start in
  let stop := if stop <? 0 then stop + n else stop in
  if (stop <? start) || (n <=? start) then []
  else take (Z.to_nat (Z.min stop (n - 1) - start + 1)) (drop (Z.to_nat start) l).

(** ZRANGE key start stop: members by rank.  Indexes must be integers. *)
Definition ZRANGE (clk : Z) (key : string) (start stop : bound) (d : db)
  : outcome (list (string * Z)) :=
  match start, stop with
  | Num i, Num j => Return (rank_slice (ranked (default ∅ (live clk d key))) i j)
  | _, _ => Throw ReplyError
  end.

(** EXPIRE key seconds: set the time-to-live of an existing key; the reply
    tells whether the key exists. *)
Definition EXPIRE (clk : Z) (key : string) (seconds : Z) (d : db) : bool * db :=
  let found := match live clk d key with Some _ => true | None => false end in
  (found,
   if found then Db (zsets d) (<[key := clk + 1000 * seconds]> (expires d)) else d).

(** ** The environment of the limiter *)

(** The condition of the connection while one [kv] call runs: [Up], the
    client is open and the command succeeds; [Down], the client is not
    open ([redisClient.isOpen] is false); [Err], the client is open but
    the command is rejected. *)
Inductive link := Up | Down | Err.

(** [clock] is what [Date.now()] returns, in milliseconds; the Redis
    server is taken to run on the same clock.  [script] lists the
    condition of the connection at each of the coming [kv] calls; once it
    is used up the connection is [Up].  [store] is the Redis data. *)
Record env := Env {
  clock : Z;
  script : list link;
  store : db
}.

Definition M (A : Type) : Type := env → outcome A * env.

Definition ret {A} (a : A) : M A := λ e, (Return a, e).

Definition bind {A B} (m : M A) (k : A → M B) : M B := λ e,
  match m e with
  | (Return a, e') => k a e'
  | (Throw x, e') => (Throw x, e')
  end.

Definition throw {A} (x : exn) : M A := λ e, (Throw x, e).

(** [try { body } catch (error) { handler }] *)
Definition try_catch {A} (body : M A) (handler : exn → M A) : M A := λ e,
  match body e with
  | (Return a, e') => (Return a, e')
  | (Throw x, e') => handler x e'
  end.

Declare Scope js_scope.
Delimit Scope js_scope with js.
Notation "x <- m ;; k" := (bind m (λ x, k))
  (at level 100, m at next level, right associativity) : js_scope.
Notation "'try' b 'catch' h" := (try_catch b h)
  (at level 100, b at level 200, h at level 200) : js_scope.
Local Open Scope js_scope.

Definition Date_now : M Z := λ e, (Return (clock e), e).

(** The connection condition that governs the [kv] call now starting. *)
Definition next_link : M link := λ e,
  (Return (hd Up (script e)), Env (clock e) (drop 1 (script e)) (store e)).

Definition isOpen (l : link) : bool :=
  match l with Down => false | _ => true end.

(** A client command under connection condition [l]. *)
Definition command {A} (l : link) (run : Z → db → outcome A * db) : M A := λ e,
  match l with
  | Up => let '(r, d) := run (clock e) (store e) in (r, Env (clock e) (script e) d)
  | Down => (Throw ClientClosedError, e)
  | Err => (Throw SocketError, e)
  end.

(** [Promise.all]: every promise of the list has been started, so each one
    has its effects whether or not another rejects; the result rejects
    with the first rejection, if there is one. *)
Fixpoint Promise_all {A} (ps : list (M A)) : M (list A) := λ e,
  match ps with
  | [] => (Return [], e)
  | p :: ps' =>
      let '(r, e1) := p e in
      let '(rs, e2) := Promise_all ps' e1 in
      (match r, rs with
       | Throw x, _ => Throw x
       | Return _, Throw x => Throw x
       | Return a, Return l => Return (a :: l)
       end, e2)
  end.

Definition ignore {A} (m : M A) : M unit := _ <- m ;; ret tt.

(** ** The node-redis client commands the adapter calls *)

Module redisClient.

Definition zAdd (l : link) (key : string) (sc : Z) (member : string) : M Z :=
  command l (λ clk d, let '(n, d') := ZADD clk key sc member d in (Return n, d')).

Definition zCount (l : link) (key : string) (lo hi : bound) : M Z :=
  command l (λ clk d, (Return (ZCOUNT clk key lo hi d), d)).

Definition zRangeByScore (l : link) (key : string) (lo hi : bound)
    (limit : option (Z * Z)) : M (list string) :=
  command l (λ clk d, (Return (fst <$> ZRANGEBYSCORE clk key lo hi limit d), d)).

Definition zRangeByScoreWithScores (l : link) (key : string) (lo hi : bound)
    (limit : option (Z * Z)) : M (list scored) :=
  command l (λ clk d, (Return (to_scored <$> ZRANGEBYSCORE clk key lo hi limit d), d)).

Definition zRange (l : link) (key : string) (start stop : bound) : M (list string) :=
  command l (λ clk d,
    (match ZRANGE clk key start stop d with
     | Return r => Return (fst <$> r)
     | Throw x => Throw x
     end, d)).

Definition zRangeWithScores (l : link) (key : string) (start stop : bound)
  : M (list scored) :=
  command l (λ clk d,
    (match ZRANGE clk key start stop d with
     | Return r => Return (to_scored <$> r)
     | Throw x => Throw x
     end, d)).

Definition expire (l : link) (key : string) (seconds : Z) : M bool :=
  command l (λ clk d, let '(b, d') := EXPIRE clk key seconds d in (Return b, d')).

End redisClient.

(** ** The [kv] adapter *)

(** What [kv.zrange] resolves to: member names, or elements with scores. *)
Inductive reply :=
  | Values (l : list string)
  | WithScores (l : list scored).

Definition reply_length (r : reply) : Z :=
  match r with
  | Values l => Z.of_nat (length l)
  | WithScores l => Z.of_nat (length l)
  end.

(** [r[0].score]; a member name has no [score] property, and reading it
    gives [undefined], which, like [null], is [None] here. *)
Definition first_score (r : reply) : option Z :=
  match r with
  | WithScores (x :: _) => Some (score x)
  | _ => None
  end.

(** The options object of [kv.zrange]; [{}] is [no_options]. *)
Record zrange_options := ZrangeOptions {
  byScore : bool;
  withScores : bool;
  count : option Z
}.

Definition no_options : zrange_options := ZrangeOptions false false None.

(** [options.count ? { offset: 0, count: options.count } : undefined] *)
Definition LIMIT (options : zrange_options) : option (Z * Z) :=
  match count options with
  | Some c => if c =? 0 then None else Some (0, c)
  | None => None
  end.

Module kv.

Definition zadd (key : string) (sc : Z) (member : string) : M (option Z) :=
  l <- next_link ;;
  if negb (isOpen l) then ret None
  else n <- redisClient.zAdd l key sc member ;; ret (Some n).

Definition zcount (key : string) (lo hi : bound) : M Z :=
  l <- next_link ;;
  if negb (isOpen l) then ret 0
  else redisClient.zCount l key lo hi.

Definition zrange (key : string) (lo hi : bound) (options : zrange_options)
  : M reply :=
  l <- next_link ;;
  if negb (isOpen l) then ret (Values [])
  else if byScore options then
    results <- redisClient.zRangeByScore l key lo hi (LIMIT options) ;;
    if withScores options then
      r <- redisClient.zRangeByScoreWithScores l key lo hi (LIMIT options) ;;
      ret (WithScores r)
    else ret (Values results)
  else if withScores options then
    r <- redisClient.zRangeWithScores l key lo hi ;; ret (WithScores r)
  else
    r <- redisClient.zRange l key lo hi ;; ret (Values r).

Definition expire (key : string) (seconds : Z) : M (option bool) :=
  l <- next_link ;;
  if negb (isOpen l) then ret None
  else b <- redisClient.expire l key seconds ;; ret (Some b).

End kv.

(** ** The limiter *)

Module LIMITS.
Definition PER_MINUTE : Z := 4.
Definition PER_DAY : Z := 500.
End LIMITS.

Module WINDOWS.
Definition MINUTE : Z := 60.
Definition DAY : Z := 86400.
End WINDOWS.

(** The object [checkRateLimit] resolves to; an absent property is [None]. *)
Record decision := mkDecision {
  allowed : bool;
  reason : option string;
  message : option string;
  waitTime : option Z;
  resetTime : option string;
  warning : option string
}.

Record quota := Quota { perMinute : Z; perDay : Z }.

(** The object [getRateLimitStatus] resolves to. *)
Record status := Status {
  requestsLastMinute : Z;
  requestsToday : Z;
  limits : quota;
  remaining : quota;
  error : option string
}.

(** [count || 0] on a number *)
Definition or_zero (n : Z) : Z := if n =? 0 then 0 else n.

Definition countRequestsInWindow (key : string) (nowSeconds windowSeconds : Z)
  : M Z :=
  try (
    let windowStart := nowSeconds - windowSeconds in
    count <- kv.zcount key (Num windowStart) PosInf ;;
    ret (or_zero count)
  ) catch (λ _, ret 0).

Definition getOldestRequestTime (key : string) (nowSeconds windowSeconds : Z)
  : M (option Z) :=
  try (
    let windowStart := nowSeconds - windowSeconds in
    oldest <- kv.zrange key (Num windowStart) PosInf
                (ZrangeOptions true false (Some 1)) ;;
    if 0 <? reply_length oldest then
      members <- kv.zrange key (Num 0) (Num 0) (ZrangeOptions false true None) ;;
      ret (if 0 <? reply_length members then first_score members else None)
    else ret None
  ) catch (λ _, ret None).

Definition minuteKey (identifier : string) : string :=
  "ratelimit:minute:" +:+ identifier.

Definition dayKey (identifier : string) : string :=
  "ratelimit:day:" +:+ identifier.

(** [oldestRequestTime ? Math.ceil(oldestRequestTime + WINDOWS.MINUTE -
    nowSeconds) : WINDOWS.MINUTE]; the number 0 is falsy, as [null] is. *)
Definition wait_time (oldestRequestTime : option Z) (nowSeconds : Z) : Z :=
  match oldestRequestTime with
  | Some t => if t =? 0 then WINDOWS.MINUTE else t + WINDOWS.MINUTE - nowSeconds
  | None => WINDOWS.MINUTE
  end.

Definition rate_limit_decision (w : Z) : decision :=
  {| allowed := false;
     reason := Some "rate_limit";
     message := Some ("Rate limit exceeded. Please wait " +:+ pretty w
                      +:+ " seconds before trying again.");
     waitTime := Some w;
     resetTime := None;
     warning := None |}.

Definition daily_limit_decision : decision :=
  {| allowed := false;
     reason := Some "daily_limit";
     message := Some "Daily limit of 500 requests reached. Please try again tomorrow.";
     waitTime := None;
     resetTime := Some "tomorrow";
     warning := None |}.

Definition allow_decision : decision :=
  {| allowed := true; reason := None; message := None; waitTime := None;
     resetTime := None; warning := None |}.

Definition fail_open_decision : decision :=
  {| allowed := true; reason := None; message := None; waitTime := None;
     resetTime := None;
     warning := Some "Rate limiting temporarily unavailable" |}.

Definition checkRateLimit (identifier : string) : M decision :=
  try (
    now <- Date_now ;;
    let nowSeconds := now / 1000 in
    minuteCount <- countRequestsInWindow (minuteKey identifier) nowSeconds
                     WINDOWS.MINUTE ;;
    if LIMITS.PER_MINUTE <=? minuteCount then
      oldestRequestTime <- getOldestRequestTime (minuteKey identifier) nowSeconds
                             WINDOWS.MINUTE ;;
      ret (rate_limit_decision (wait_time oldestRequestTime nowSeconds))
    else
      dayCount <- countRequestsInWindow (dayKey identifier) nowSeconds
                    WINDOWS.DAY ;;
      if LIMITS.PER_DAY <=? dayCount then ret daily_limit_decision
      else ret allow_decision
  ) catch (λ _, ret fail_open_decision).

Definition recordRequest (identifier : string) : M unit :=
  try (
    now <- Date_now ;;
    let nowSeconds := now / 1000 in
    _ <- Promise_all [
           ignore (kv.zadd (minuteKey identifier) nowSeconds (pretty now));
           ignore (kv.zadd (dayKey identifier) nowSeconds (pretty now));
           ignore (kv.expire (minuteKey identifier) (WINDOWS.MINUTE * 2));
           ignore (kv.expire (dayKey identifier) (WINDOWS.DAY * 2))
         ] ;;
    ret tt
  ) catch (λ _, ret tt).

Definition status_unavailable : status :=
  {| requestsLastMinute := 0;
     requestsToday := 0;
     limits := Quota LIMITS.PER_MINUTE LIMITS.PER_DAY;
     remaining := Quota LIMITS.PER_MINUTE LIMITS.PER_DAY;
     error := Some "Unable to fetch rate limit status" |}.

Definition getRateLimitStatus (identifier : string) : M status :=
  try (
    now <- Date_now ;;
    let nowSeconds := now / 1000 in
    counts <- Promise_all [
                countRequestsInWindow (minuteKey identifier) nowSeconds WINDOWS.MINUTE;
                countRequestsInWindow (dayKey identifier) nowSeconds WINDOWS.DAY
              ] ;;
    let minuteCount := nth 0 counts 0 in
    let dayCount := nth 1 counts 0 in
    ret {| requestsLastMinute := minuteCount;
           requestsToday := dayCount;
           limits := Quota LIMITS.PER_MINUTE LIMITS.PER_DAY;
           remaining := Quota (Z.max 0 (LIMITS.PER_MINUTE - minuteCount))
                              (Z.max 0 (LIMITS.PER_DAY - dayCount));
           error := None |}
  ) catch (λ _, ret status_unavailable).


(** ** Client identity *)

(** Header values reach the limiter as strings of one-byte characters.
    The characters [String.prototype.trim] strips, among those: tab, line
    feed, vertical tab, form feed, carriage return, space and the
    no-break space. *)
Definition is_space (c : ascii) : bool :=
  let n := N_of_ascii c in
  ((9 <=? n) && (n <=? 13) || (n =? 32) || (n =? 160))%N.

Fixpoint trimStart (s : string) : string :=
  match s with
  | String c r => if is_space c then trimStart r else s
  | EmptyString => EmptyString
  end.

Fixpoint trimEnd (s : string) : string :=
  match s with
  | EmptyString => EmptyString
  | String c r =>
      match trimEnd r with
      | EmptyString => if is_space c then EmptyString else String c EmptyString
      | r' => String c r'
      end
  end.

Definition trim (s : string) : string := trimEnd (trimStart s).

(** [s.split(sep)] for a separator of one character; the result is never
    empty. *)
Fixpoint split (sep : ascii) (s : string) : list string :=
  match s with
  | EmptyString => [EmptyString]
  | String c r =>
      if Ascii.eqb c sep then EmptyString :: split sep r
      else match split sep r with
           | x :: xs => String c x :: xs
           | [] => [String c EmptyString]
           end
  end.

(** The part of an Express request the limiter reads.  A property that is
    [undefined] is [None]. *)
Record connection := Connection { remoteAddress : option string }.

Record request := Request {
  headers : gmap string string;
  ip : option string;
  connection_of : connection
}.

(** JavaScript truthiness of a string or [undefined]. *)
Definition truthy (v : option string) : bool :=
  match v with
  | Some EmptyString | None => false
  | Some _ => true
  end.

(** [a || b] *)
Definition js_or (a b : option string) : option string :=
  if truthy a then a else b.

Definition getClientIdentifier (req : request) : string :=
  let forwarded := headers req !! "x-forwarded-for" in
  let realIp := headers req !! "x-real-ip" in
  if truthy forwarded
  then trim (hd EmptyString (split "," (default EmptyString forwarded)))
  else default EmptyString
         (js_or realIp
            (js_or (ip req)
               (js_or (remoteAddress (connection_of req)) (Some "unknown")))).

(** ** Running the limiter *)

(** Run [m] with the clock reading [ms] milliseconds. *)
Definition at_time {A} (ms : Z) (m : M A) : M A := λ e,
  m (Env ms (script e) (store e)).

(** The environment after [n] further [kv] calls that left the data as it
    was. *)
Definition advance (n : nat) (e : env) : env :=
  Env (clock e) (drop n (script e)) (store e).

(** Nothing stored, the connection in order. *)
Definition fresh (clk : Z) : env := Env clk [] empty_db.

(** The connection is in order for the next [n] calls of [kv]. *)
Definition up_for (n : nat) (sc : list link) : bool :=
  forallb (λ l, match l with Up => true | _ => false end) (take n sc).

(** Four requests recorded at [t0], [t0 + 10], [t0 + 20] and [t0 + 30]
    seconds. *)
Definition burst_records (t0 : Z) (identifier : string) : M unit :=
  _ <- at_time (1000 * t0) (recordRequest identifier) ;;
  _ <- at_time (1000 * (t0 + 10)) (recordRequest identifier) ;;
  _ <- at_time (1000 * (t0 + 20)) (recordRequest identifier) ;;
  at_time (1000 * (t0 + 30)) (recordRequest identifier).

(** The four requests, then a check at [t0 + 35] seconds. *)
Definition burst (t0 : Z) (identifier : string) : M decision :=
  _ <- burst_records t0 identifier ;;
  at_time (1000 * (t0 + 35)) (checkRateLimit identifier).

(** One request, then four more a hundred seconds later, one per second:
    each passes its own check before it is recorded. *)
Definition straggler (identifier : string) : M unit :=
  _ <- at_time 1700000000000 (recordRequest identifier) ;;
  _ <- at_time 1700000100000 (recordRequest identifier) ;;
  _ <- at_time 1700000101000 (recordRequest identifier) ;;
  _ <- at_time 1700000102000 (recordRequest identifier) ;;
  at_time 1700000103000 (recordRequest identifier).

(** [getRateLimitStatus] called [n] times in a row. *)
Fixpoint repeat_status (n : nat) (identifier : string) : M unit :=
  match n with
  | O => ret tt
  | S n' => _ <- getRateLimitStatus identifier ;; repeat_status n' identifier
  end.

(** A call of the request handler into the limiter, and a sequence of such
    calls, each at its own time. *)
Inductive call :=
  | check (identifier : string)
  | record (identifier : string).

Fixpoint run_calls (cs : list (Z * call)) : M (list (option decision)) :=
  match cs with
  | [] => ret []
  | (t, check identifier) :: cs' =>
      d <- at_time t (checkRateLimit identifier) ;;
      ds <- run_calls cs' ;;
      ret (Some d :: ds)
  | (t, record identifier) :: cs' =>
      _ <- at_time t (recordRequest identifier) ;;
      ds <- run_calls cs' ;;
      ret (None :: ds)
  end.

(** ** What the store holds, in the words of the specification *)

(** The events of [key] that a command running at [clk] can see. *)
Definition events (clk : Z) (d : db) (key : string) : zset :=
  default ∅ (live clk d key).

(** The number of events with score at least [cutoff]. *)
Definition events_since (clk : Z) (d : db) (key : string) (cutoff : Z) : Z :=
  Z.of_nat (size (filter (λ p : string * Z, cutoff ≤ p.2) (events clk d key))).

(** [s] is the score of the earliest event with score at least [cutoff]. *)
Definition oldest_since (clk : Z) (d : db) (key : string) (cutoff s : Z) : Prop :=
  (∃ m, events clk d key !! m = Some s) ∧ cutoff ≤ s ∧
  ∀ m s', events clk d key !! m = Some s' → cutoff ≤ s' → s ≤ s'.

(** [s] is the least score stored under [key], in the window or not. *)
Definition oldest_overall (clk : Z) (d : db) (key : string) (s : Z) : Prop :=
  (∃ m, events clk d key !! m = Some s) ∧
  ∀ m s', events clk d key !! m = Some s' → s ≤ s'.

(** The store holds [member] under [key] at time [clk]. *)
Definition present (clk : Z) (d : db) (key member : string) : Prop :=
  is_Some (events clk d key !! member).

(** ** Client identity, in the words of the specification *)

(** A source of the identity is available when it is present and is not
    the empty string. *)
Definition available (v : option string) (s : string) : Prop :=
  v = Some s ∧ s ≠ EmptyString.

Definition unavailable (v : option string) : Prop :=
  v = None ∨ v = Some EmptyString.

Fixpoint all_space (s : string) : Prop :=
  match s with
  | EmptyString => True
  | String c r => is_space c ∧ all_space r
  end.

Fixpoint no_comma (s : string) : Prop :=
  match s with
  | EmptyString => True
  | String c r => c ≠ ","%char ∧ no_comma r
  end.

Definition first_char (s : string) : option ascii :=
  match s with
  | EmptyString => None
  | String c _ => Some c
  end.

Fixpoint last_char (s : string) : option ascii :=
  match s with
  | EmptyString => None
  | String c EmptyString => Some c
  | String _ r => last_char r
  end.

Definition space_at (c : option ascii) : Prop :=
  match c with Some c => is_space c | None => False end.

(** [tok] is the first comma-separated token of [f]. *)
Definition first_token (f tok : string) : Prop :=
  no_comma tok ∧ (f = tok ∨ ∃ rest, f = tok +:+ String "," rest).

(** [t] is [s] without its leading and trailing space characters. *)
Definition trimmed (s t : string) : Prop :=
  (∃ pre post, s = pre +:+ t +:+ post ∧ all_space pre ∧ all_space post) ∧
  ¬ space_at (first_char t) ∧ ¬ space_at (last_char t).

Inductive identifies (req : request) : string → Prop :=
  | by_forwarded f tok id :
      available (headers req !! "x-forwarded-for") f →
      first_token f tok → trimmed tok id →
      identifies req id
  | by_real_ip a :
      unavailable (headers req !! "x-forwarded-for") →
      available (headers req !! "x-real-ip") a →
      identifies req a
  | by_peer_ip a :
      unavailable (headers req !! "x-forwarded-for") →
      unavailable (headers req !! "x-real-ip") →
      available (ip req) a →
      identifies req a
  | by_peer_socket a :
      unavailable (headers req !! "x-forwarded-for") →
      unavailable (headers req !! "x-real-ip") →
      unavailable (ip req) →
      available (remoteAddress (connection_of req)) a →
      identifies req a
  | by_sentinel :
      unavailable (headers req !! "x-forwarded-for") →
      unavailable (headers req !! "x-real-ip") →
      unavailable (ip req) →
      unavailable (remoteAddress (connection_of req)) →
      identifies req "unknown".

(** ** Traffic used in examples *)

(** [n] requests recorded from [t] milliseconds on, [step] milliseconds
    apart. *)
Fixpoint record_every (n : nat) (t step : Z) (identifier : string) : M unit :=
  match n with
  | O => ret tt
  | S n' =>
      _ <- at_time t (recordRequest identifier) ;;
      record_every n' (t + step) step identifier
  end.

(** The store after the straggler traffic, after a burst of four, and
    after five hundred requests a hundred seconds apart. *)
Definition straggler_store : db := store (straggler "10.0.0.5" (fresh 0)).2.

Definition burst_store : db := store (burst_records 1700000000 "10.0.0.5" (fresh 0)).2.

Definition busy_day_store : db :=
  store (record_every 500 1700000000000 100000 "10.0.0.5" (fresh 0)).2.

(** The events of the minute key after a burst that started at second
    [t0], as seen until two minutes after its last request. *)
Definition burst_events (t0 : Z) : zset :=
  <[pretty (1000 * (t0 + 30)) := t0 + 30]>
    (<[pretty (1000 * (t0 + 20)) := t0 + 20]>
       (<[pretty (1000 * (t0 + 10)) := t0 + 10]>
          (<[pretty (1000 * t0) := t0]> ∅))).

(** ** The limiter in closed form *)

(** The count a window check works with: the number of stored events in
    the window when the connection is in order, and zero otherwise. *)
Definition counted (e : env) (key : string) (cutoff : Z) : Z :=
  match hd Up (script e) with
  | Up => events_since (clock e) (store e) key cutoff
  | _ => 0
  end.

(** The score [getOldestRequestTime] reads with its second query: that of
    the member of rank 0 of the whole set. *)
Definition first_ranked_score (m : zset) : option Z :=
  snd <$> head (ranked m).

(** What [getOldestRequestTime] resolves to and how many [kv] calls it
    makes, by the condition of the connection at its two queries. *)
Definition oldest_found (e : env) (key : string) (cutoff : Z) : option Z * nat :=
  match hd Up (script e) with
  | Up =>
      if 0 <? events_since (clock e) (store e) key cutoff then
        (match hd Up (drop 1 (script e)) with
         | Up => first_ranked_score (events (clock e) (store e) key)
         | _ => None
         end, 2%nat)
      else (None, 1%nat)
  | _ => (None, 1%nat)
  end.

(** The store after the four commands of [recordRequest], in the order in
    which they are issued. *)
Definition recorded (clk : Z) (identifier : string) (d : db) : db :=
  let d1 := (ZADD clk (minuteKey identifier) (clk / 1000) (pretty clk) d).2 in
  let d2 := (ZADD clk (dayKey identifier) (clk / 1000) (pretty clk) d1).2 in
  let d3 := (EXPIRE clk (minuteKey identifier) (WINDOWS.MINUTE * 2) d2).2 in
  (EXPIRE clk (dayKey identifier) (WINDOWS.DAY * 2) d3).2.

(** ** One [recordRequest], whatever the condition of the connection *)

(** What [kv.zadd] and [kv.expire] leave in the store under the connection
    condition [l]: the effect of the command when the connection is in
    order, nothing otherwise. *)
Definition zadd_under (l : link) (clk : Z) (key : string) (sc : Z) (member : string)
    (d : db) : db :=
  match l with Up => (ZADD clk key sc member d).2 | _ => d end.

Definition expire_under (l : link) (clk : Z) (key : string) (seconds : Z) (d : db) : db :=
  match l with Up => (EXPIRE clk key seconds d).2 | _ => d end.

(** The store after the four commands of [recordRequest], [ls] giving the
    condition of the connection at each of them. *)
Definition recorded_under (ls : list link) (clk : Z) (identifier : string) (d : db) : db :=
  let d1 := zadd_under (hd Up ls) clk (minuteKey identifier) (clk / 1000) (pretty clk) d in
  let d2 := zadd_under (hd Up (drop 1 ls)) clk (dayKey identifier) (clk / 1000)
              (pretty clk) d1 in
  let d3 := expire_under (hd Up (drop 2 ls)) clk (minuteKey identifier)
              (WINDOWS.MINUTE * 2) d2 in
  expire_under (hd Up (drop 3 ls)) clk (dayKey identifier) (WINDOWS.DAY * 2) d3.

(** ** The scenario of four requests ten seconds apart *)

(** The store after four requests of an identity ten seconds apart, the
    first at [start] milliseconds, on an empty store. *)
Abbreviation spaced_store identifier start :=
  (recorded (start + 30000) identifier
     (recorded (start + 20000) identifier
        (recorded (start + 10000) identifier
           (recorded start identifier empty_db)))).

(** The events of its minute key, as seen until two minutes after the last
    request. *)
Definition spaced_events (start : Z) : zset :=
  <[pretty (start + 30000) := start / 1000 + 30]>
    (<[pretty (start + 20000) := start / 1000 + 20]>
       (<[pretty (start + 10000) := start / 1000 + 10]>
          (<[pretty start := start / 1000]> ∅))).

(** ** Reconnecting to Redis *)

(** What the [reconnectStrategy] of the client returns: the time to wait
    before the next attempt, in milliseconds, or an error, which ends the
    attempts. *)
Inductive reconnect :=
  | RetryAfter (ms : Z)
  | StopWith (message : string).

Definition reconnectStrategy (retries : Z) : reconnect :=
  if 10 <? retries then StopWith "Max reconnection attempts reached"
  else RetryAfter (Z.min (retries * 100) 3000).

(** ** The request handlers of server.js *)

(** The JSON bodies the handlers answer with, told apart by their [error]
    property ([success] for the bodies without one); of the other
    properties, those that come from the limiter. *)
Inductive body :=
  | url_is_required
  | analysis_id_is_required
  | rate_limit_exceeded (message reason : option string) (waitTime : option Z)
      (resetTime : option string)
  | virustotal_rate_limit
  | virustotal_error
  | success
  | server_error
  | status_report (st : status).

Record response := Response { code : Z; body_of : body }.

(** How the request to VirusTotal goes: [fetch] or [response.json()]
    rejects, or a reply arrives with its HTTP status; [readable] tells
    whether the properties the handler reads of the parsed reply can be
    read (reading a property of [null] or [undefined] throws). *)
Inductive upstream :=
  | Unreachable
  | Reply (status : Z) (readable : bool).

(** [response.ok] *)
Definition ok (status : Z) : bool := (200 <=? status) && (status <=? 299).

(** The answer to a request the limiter denies. *)
Definition too_many_requests (rateLimitCheck : decision) : response :=
  Response 429 (rate_limit_exceeded (message rateLimitCheck) (reason rateLimitCheck)
                  (waitTime rateLimitCheck) (resetTime rateLimitCheck)).

(** The part the two scanning handlers share, from the check on.  The
    [catch] of a handler answers 500 to whatever is thrown, so each step
    that throws answers 500 here.  [recordRequest()] is called without an
    argument and is not awaited: its [identifier] is [undefined], which the
    template literals of the keys render as "undefined"; its four commands
    are issued before the handler goes on, and its promise never rejects. *)
Definition limited (req : request) (vt : upstream) : M response :=
  let clientId := getClientIdentifier req in
  rateLimitCheck <- checkRateLimit clientId ;;
  if negb (allowed rateLimitCheck) then ret (too_many_requests rateLimitCheck)
  else
    match vt with
    | Unreachable => ret (Response 500 server_error)
    | Reply status readable =>
        if negb (ok status) then
          if negb readable then ret (Response 500 server_error)
          else if status =? 429 then ret (Response 429 virustotal_rate_limit)
          else ret (Response status virustotal_error)
        else
          _ <- recordRequest "undefined" ;;
          if readable then ret (Response 200 success)
          else ret (Response 500 server_error)
    end.

(** [POST /api/scan], with [url] the property of that name of the body. *)
Definition scan (req : request) (url : option string) (vt : upstream) : M response :=
  try (
    if negb (truthy url) then ret (Response 400 url_is_required)
    else limited req vt
  ) catch (λ _, ret (Response 500 server_error)).

(** [GET /api/analysis/:id] *)
Definition analysis (req : request) (id : option string) (vt : upstream) : M response :=
  try (
    if negb (truthy id) then ret (Response 400 analysis_id_is_required)
    else limited req vt
  ) catch (λ _, ret (Response 500 server_error)).

(** [GET /api/rate-limit-status] *)
Definition rate_limit_status (req : request) : M response :=
  try (
    let clientId := getClientIdentifier req in
    st <- getRateLimitStatus clientId ;;
    ret (Response 200 (status_report st))
  ) catch (λ _, ret (Response 500 server_error)).

(** A request to one of the two scanning handlers, and requests served
    one after the other, each at its own time. *)
Inductive served :=
  | to_scan (req : request) (url : option string) (vt : upstream)
  | to_analysis (req : request) (id : option string) (vt : upstream).

Definition client_of (r : served) : string :=
  match r with
  | to_scan req _ _ | to_analysis req _ _ => getClientIdentifier req
  end.

Definition serve (r : served) : M response :=
  match r with
  | to_scan req url vt => scan req url vt
  | to_analysis req id vt => analysis req id vt
  end.

Fixpoint serve_all (rs : list (Z * served)) : M (list response) :=
  match rs with
  | [] => ret []
  | (t, r) :: rs' =>
      resp <- at_time t (serve r) ;;
      resps <- serve_all rs' ;;
      ret (resp :: resps)
  end.

(** What a handler may have done to the store: nothing, or the commands
    of one [recordRequest] for the identity "undefined". *)
Definition untouched_or_undefined (d d' : db) : Prop :=
  d' = d ∨ ∃ ls clk, d' = recorded_under ls clk "undefined" d.

(** No identity but "undefined" has an event stored. *)
Definition only_undefined (d : db) : Prop :=
  ∀ key clk, key ≠ minuteKey "undefined" → key ≠ dayKey "undefined" →
             live clk d key = None.

(** The answer is not the limiter's denial. *)
Definition not_limited (resp : response) : Prop :=
  match body_of resp with
  | rate_limit_exceeded _ _ _ _ => False
  | _ => True
  end.

(** ** The browser side: classifying a scan (class VirusTotalAPI) *)

Module VirusTotalAPI.

(** The three values [classifyRisk] returns, in the order of their
    severity. *)
Inductive riskLevel := safe | suspicious | dangerous.

Definition severity (level : riskLevel) : Z :=
  match level with safe => 0 | suspicious => 1 | dangerous => 2 end.

(** The statistics of an analysis that the classification reads. *)
Record stats := Stats { stats_malicious : Z; stats_suspicious : Z }.

Definition classifyRisk (st : stats) : riskLevel :=
  if 0 <? stats_malicious st then dangerous
  else if 3 <? stats_suspicious st then suspicious
  else safe.

(** What one engine reports: its category and its result, the latter as
    the template literal renders it. *)
Record verdict := Verdict { category : string; result : string }.

(** [`${engine}: ${result.result}`] *)
Definition describe (p : string * verdict) : string :=
  p.1 +:+ ": " +:+ result p.2.

(** [results] lists the entries of the object of that name in the order
    of [Object.entries]. *)
Definition extractThreats (results : list (string * verdict)) (level : riskLevel)
  : list string :=
  match level with
  | safe => []
  | _ =>
      let maliciousEngines :=
        describe <$> filter (λ p : string * verdict, category p.2 = "malicious") results in
      let suspiciousEngines :=
        describe <$> filter (λ p : string * verdict, category p.2 = "suspicious") results in
      (if (0 <? length maliciousEngines)%nat then
         ("Detected as malicious by " +:+ pretty (length maliciousEngines)
            +:+ " security vendor(s)") :: take 5 maliciousEngines
       else []) ++
      (if (0 <? length suspiciousEngines)%nat then
         ("Flagged as suspicious by " +:+ pretty (length suspiciousEngines)
            +:+ " security vendor(s)") ::
         (if (length maliciousEngines =? 0)%nat then take 3 suspiciousEngines else [])
       else [])
  end.

End VirusTotalAPI.

(** ** The browser side: the address to scan (class ScannerUI) *)

Module ScannerUI.

(** The lower-case form of an ASCII letter; other characters as they are. *)
Definition lower (c : ascii) : ascii :=
  let n := N_of_ascii c in
  if ((65 <=? n) && (n <=? 90))%N then ascii_of_N (n + 32) else c.

(** [s] begins with [p], letters compared without regard to case; [p] is
    in lower case. *)
Fixpoint starts_with (p s : string) : bool :=
  match p, s with
  | EmptyString, _ => true
  | String a p', String b s' => Ascii.eqb a (lower b) && starts_with p' s'
  | String _ _, EmptyString => false
  end.

(** [url.match(/^https?:\/\//i)] as a condition *)
Definition has_scheme (url : string) : bool :=
  starts_with "http://" url || starts_with "https://" url.

Definition normalizeURL (url : string) : string :=
  if negb (has_scheme url) then "https://" +:+ url else url.

End ScannerUI.

(** * Properties *)

(** ** Rank order *)

#[local] Instance rank_le_total : Total rank_le.
Proof.
  intros [m1 s1] [m2 s2]. unfold rank_le, rank_leb. simpl.
  destruct (Z.lt_trichotomy s1 s2) as [H | [H | H]].
  - left. apply Z.ltb_lt in H. rewrite H. done.
  - subst s2. rewrite Z.eqb_refl, Z.ltb_irrefl. simpl.
    destruct (String.le_total m1 m2) as [H | H]; [left | right]; exact H.
  - right. apply Z.ltb_lt in H. rewrite H. done.
Qed.

Lemma rank_le_score a b : rank_le a b → a.2 ≤ b.2.
Proof.
  unfold rank_le, rank_leb. intros H.
  apply Is_true_true, orb_true_iff in H. destruct H as [H | H].
  - apply Z.ltb_lt in H. lia.
  - apply andb_true_iff in H. destruct H as [H _]. apply Z.eqb_eq in H. lia.
Qed.

Lemma ranked_perm (m : zset) : ranked m ≡ₚ map_to_list m.
Proof. apply merge_sort_Permutation. Qed.

Lemma elem_of_ranked (m : zset) k s : (k, s) ∈ ranked m ↔ m !! k = Some s.
Proof. rewrite ranked_perm. apply elem_of_map_to_list. Qed.

Lemma ranked_length (m : zset) : length (ranked m) = size m.
Proof. rewrite ranked_perm. apply length_map_to_list. Qed.

Lemma ranked_nil (m : zset) : ranked m = [] ↔ m = ∅.
Proof.
  rewrite <- map_size_empty_iff, <- ranked_length.
  destruct (ranked m); simpl; split; intros; congruence.
Qed.

(** The first element in rank order carries the least score of the set. *)
Lemma ranked_head_least (m : zset) p l :
  ranked m = p :: l →
  m !! p.1 = Some p.2 ∧ ∀ k s, m !! k = Some s → p.2 ≤ s.
Proof.
  intros Hr. split.
  - destruct p as [k s]. simpl. apply elem_of_ranked. rewrite Hr. left.
  - intros k s Hks. apply elem_of_ranked in Hks. rewrite Hr in Hks.
    assert (Hs : Sorted rank_le (ranked m)).
    { unfold ranked. apply (Sorted_merge_sort rank_le). }
    rewrite Hr in Hs.
    apply elem_of_cons in Hks. destruct Hks as [<- | Hin]; [simpl; lia |].
    assert (Hall : Forall (λ q, p.2 ≤ q.2) l).
    { clear Hr Hin. revert p Hs. induction l as [| q l IH]; intros p Hs.
      - constructor.
      - apply Sorted_inv in Hs. destruct Hs as [Hs Hhd].
        apply HdRel_inv in Hhd. apply rank_le_score in Hhd.
        constructor; [exact Hhd |].
        eapply Forall_impl; [apply IH, Hs |]. simpl. intros; lia. }
    rewrite Forall_forall in Hall. apply (Hall _ Hin).
Qed.

Lemma rank_slice_first {A} (l : list A) : rank_slice l 0 0 = take 1 l.
Proof.
  unfold rank_slice. destruct l as [| x l]; [reflexivity |].
  cbn [length]. rewrite Nat2Z.inj_succ.
  replace (0 <? 0) with false by reflexivity. cbn [orb].
  destruct (Z.leb_spec (Z.succ (Z.of_nat (length l))) 0) as [H | H]; [lia |].
  replace (Z.min 0 (Z.succ (Z.of_nat (length l)) - 1) - 0 + 1) with 1 by lia.
  reflexivity.
Qed.

(** ** The equations of the adapter and of the two helpers *)

Lemma or_zero_id n : or_zero n = n.
Proof. unfold or_zero. destruct (Z.eqb_spec n 0); congruence. Qed.

Lemma in_range_since cutoff s : in_range (Num cutoff) PosInf s = bool_decide (cutoff ≤ s).
Proof.
  unfold in_range, above, below. rewrite andb_true_r.
  destruct (Z.leb_spec cutoff s); [rewrite bool_decide_true | rewrite bool_decide_false];
    auto; lia.
Qed.

Lemma ZCOUNT_since clk key cutoff d :
  ZCOUNT clk key (Num cutoff) PosInf d = events_since clk d key cutoff.
Proof.
  unfold ZCOUNT, events_since, events. do 2 f_equal.
  apply map_filter_ext. intros k s _. simpl.
  rewrite in_range_since, bool_decide_spec. reflexivity.
Qed.

Lemma zcount_eq key lo hi e :
  kv.zcount key lo hi e =
  (match hd Up (script e) with
   | Up => Return (ZCOUNT (clock e) key lo hi (store e))
   | Down => Return 0
   | Err => Throw SocketError
   end, advance 1 e).
Proof.
  unfold kv.zcount, bind, next_link, advance.
  destruct (hd Up (script e)); reflexivity.
Qed.

Lemma countRequestsInWindow_eq key nowSeconds windowSeconds e :
  countRequestsInWindow key nowSeconds windowSeconds e =
  (Return (counted e key (nowSeconds - windowSeconds)), advance 1 e).
Proof.
  unfold countRequestsInWindow, try_catch, bind, counted.
  rewrite zcount_eq.
  destruct (hd Up (script e)); unfold ret; rewrite ?or_zero_id, ?ZCOUNT_since;
    reflexivity.
Qed.

Lemma filter_ranked_length (P : string * Z → Prop) `{∀ p, Decision (P p)} (m : zset) :
  length (filter P (ranked m)) = size (filter P m).
Proof.
  rewrite <- length_map_to_list.
  apply Permutation_length. rewrite ranked_perm.
  apply NoDup_Permutation.
  - apply NoDup_filter, NoDup_map_to_list.
  - apply NoDup_map_to_list.
  - intros [k s]. rewrite list_elem_of_filter, !elem_of_map_to_list.
    rewrite map_lookup_filter_Some. tauto.
Qed.

Lemma zrange_by_score_eq key cutoff e :
  kv.zrange key (Num cutoff) PosInf (ZrangeOptions true false (Some 1)) e =
  (match hd Up (script e) with
   | Up => Return (Values (fst <$> take 1
             (filter (λ p : string * Z, in_range (Num cutoff) PosInf p.2)
                     (ranked (events (clock e) (store e) key)))))
   | Down => Return (Values [])
   | Err => Throw SocketError
   end, advance 1 e).
Proof.
  unfold kv.zrange, bind, next_link, advance.
  destruct (hd Up (script e)); reflexivity.
Qed.

Lemma zrange_first_eq key e :
  kv.zrange key (Num 0) (Num 0) (ZrangeOptions false true None) e =
  (match hd Up (script e) with
   | Up => Return (WithScores (to_scored <$> take 1
             (ranked (events (clock e) (store e) key))))
   | Down => Return (Values [])
   | Err => Throw SocketError
   end, advance 1 e).
Proof.
  unfold kv.zrange, bind, next_link, advance.
  destruct (hd Up (script e)); try reflexivity.
  cbn. unfold ZRANGE. rewrite rank_slice_first. reflexivity.
Qed.

Lemma advance_advance n k e : advance n (advance k e) = advance (k + n) e.
Proof. unfold advance. simpl. rewrite drop_drop. reflexivity. Qed.

Lemma getOldestRequestTime_eq key nowSeconds windowSeconds e :
  getOldestRequestTime key nowSeconds windowSeconds e =
  (Return (oldest_found e key (nowSeconds - windowSeconds)).1,
   advance (oldest_found e key (nowSeconds - windowSeconds)).2 e).
Proof.
  unfold getOldestRequestTime, try_catch, bind, oldest_found.
  rewrite zrange_by_score_eq.
  destruct (hd Up (script e)) eqn:Hl1; try reflexivity.
  set (hits := filter _ (ranked _)).
  assert (Hlen : reply_length (Values (fst <$> take 1 hits)) =
                 Z.of_nat (Nat.min 1 (length hits))).
  { simpl. rewrite length_fmap, length_take. reflexivity. }
  assert (Hsz : Z.of_nat (length hits) =
                events_since (clock e) (store e) key (nowSeconds - windowSeconds)).
  { unfold hits. rewrite filter_ranked_length. unfold events_since.
    do 2 f_equal. apply map_filter_ext. intros k s _. simpl.
    rewrite in_range_since, bool_decide_spec. reflexivity. }
  rewrite Hlen, <- Hsz.
  destruct (length hits) as [| n] eqn:Hn.
  - reflexivity.
  - replace (0 <? Z.of_nat (1 `min` S n)) with true by reflexivity.
    replace (0 <? Z.of_nat (S n)) with true by (symmetry; apply Z.ltb_lt; lia).
    rewrite zrange_first_eq. rewrite advance_advance. simpl.
    destruct (hd Up (drop 1 (script e))); try reflexivity.
    unfold ret, first_ranked_score.
    destruct (ranked (events (clock e) (store e) key)); reflexivity.
Qed.

(** ** The equations of the three entry points *)

(** [checkRateLimit] by cases on the two counts; no exception reaches its
    own [catch], since each helper has caught what its query threw. *)
Lemma checkRateLimit_eq identifier e :
  checkRateLimit identifier e =
  let nowSeconds := clock e / 1000 in
  if LIMITS.PER_MINUTE <=?
       counted e (minuteKey identifier) (nowSeconds - WINDOWS.MINUTE)
  then
    let found := oldest_found (advance 1 e) (minuteKey identifier)
                   (nowSeconds - WINDOWS.MINUTE) in
    (Return (rate_limit_decision (wait_time found.1 nowSeconds)),
     advance (1 + found.2) e)
  else
    (Return (if LIMITS.PER_DAY <=?
                  counted (advance 1 e) (dayKey identifier) (nowSeconds - WINDOWS.DAY)
             then daily_limit_decision else allow_decision),
     advance 2 e).
Proof.
  unfold checkRateLimit, try_catch, bind, Date_now.
  rewrite countRequestsInWindow_eq. cbv zeta.
  destruct (LIMITS.PER_MINUTE <=? _).
  - rewrite getOldestRequestTime_eq, advance_advance. reflexivity.
  - rewrite countRequestsInWindow_eq, advance_advance.
    change (clock (advance 1 e)) with (clock e).
    destruct (LIMITS.PER_DAY <=? _); reflexivity.
Qed.

Lemma getRateLimitStatus_eq identifier e :
  getRateLimitStatus identifier e =
  let nowSeconds := clock e / 1000 in
  let minuteCount := counted e (minuteKey identifier) (nowSeconds - WINDOWS.MINUTE) in
  let dayCount :=
    counted (advance 1 e) (dayKey identifier) (nowSeconds - WINDOWS.DAY) in
  (Return {| requestsLastMinute := minuteCount;
             requestsToday := dayCount;
             limits := Quota LIMITS.PER_MINUTE LIMITS.PER_DAY;
             remaining := Quota (Z.max 0 (LIMITS.PER_MINUTE - minuteCount))
                                (Z.max 0 (LIMITS.PER_DAY - dayCount));
             error := None |},
   advance 2 e).
Proof.
  unfold getRateLimitStatus, try_catch, bind, Date_now. cbn [Promise_all].
  rewrite !countRequestsInWindow_eq, advance_advance. reflexivity.
Qed.

Lemma repeat_status_eq n identifier e :
  repeat_status n identifier e = (Return tt, advance (2 * n) e).
Proof.
  revert e. induction n as [| n IH]; intros e.
  - destruct e. unfold advance. reflexivity.
  - cbn [repeat_status]. unfold bind at 1.
    rewrite getRateLimitStatus_eq. cbv beta iota zeta. rewrite IH, advance_advance.
    do 2 f_equal. lia.
Qed.

(** ** What one [recordRequest] leaves in the store *)

Lemma minuteKey_dayKey identifier : minuteKey identifier ≠ dayKey identifier.
Proof. unfold minuteKey, dayKey. cbn. discriminate. Qed.

Lemma recordRequest_up identifier e :
  up_for 4 (script e) = true →
  recordRequest identifier e =
  (Return tt, Env (clock e) (drop 4 (script e)) (recorded (clock e) identifier (store e))).
Proof.
  destruct e as [clk sc d]. cbn [script clock store].
  destruct sc as [| [] [| [] [| [] [| [] sc]]]]; try discriminate; intros _;
    reflexivity.
Qed.

Ltac store_cases identifier :=
  let Hne := fresh "Hne" in
  pose proof (minuteKey_dayKey identifier) as Hne;
  unfold recorded, EXPIRE, ZADD, events, live, expired; cbv zeta;
  cbn [fst snd zsets expires];
  generalize dependent (minuteKey identifier);
  generalize dependent (dayKey identifier);
  intros;
  repeat (case_match; simplify_map_eq; try done; try lia).

Lemma recorded_zsets clk identifier d :
  zsets (recorded clk identifier d) =
  <[dayKey identifier := <[pretty clk := clk / 1000]> (events clk d (dayKey identifier))]>
    (<[minuteKey identifier :=
         <[pretty clk := clk / 1000]> (events clk d (minuteKey identifier))]> (zsets d)).
Proof. store_cases identifier. Qed.

Lemma recorded_expires_minute clk identifier d :
  expires (recorded clk identifier d) !! minuteKey identifier =
  Some (clk + 1000 * (WINDOWS.MINUTE * 2)).
Proof. store_cases identifier. Qed.

Lemma recorded_expires_day clk identifier d :
  expires (recorded clk identifier d) !! dayKey identifier =
  Some (clk + 1000 * (WINDOWS.DAY * 2)).
Proof. store_cases identifier. Qed.

Lemma events_recorded_minute clk identifier d clk' :
  clk' ≤ clk + 1000 * (WINDOWS.MINUTE * 2) →
  events clk' (recorded clk identifier d) (minuteKey identifier) =
  <[pretty clk := clk / 1000]> (events clk d (minuteKey identifier)).
Proof.
  intros Hle. unfold events at 1, live, expired.
  rewrite recorded_expires_minute, recorded_zsets.
  destruct (Z.ltb_spec (clk + 1000 * (WINDOWS.MINUTE * 2)) clk'); [lia |].
  rewrite lookup_insert_ne by (apply not_eq_sym, minuteKey_dayKey).
  rewrite lookup_insert_eq. reflexivity.
Qed.

Lemma events_recorded_day clk identifier d clk' :
  clk' ≤ clk + 1000 * (WINDOWS.DAY * 2) →
  events clk' (recorded clk identifier d) (dayKey identifier) =
  <[pretty clk := clk / 1000]> (events clk d (dayKey identifier)).
Proof.
  intros Hle. unfold events at 1, live, expired.
  rewrite recorded_expires_day, recorded_zsets.
  destruct (Z.ltb_spec (clk + 1000 * (WINDOWS.DAY * 2)) clk'); [lia |].
  rewrite lookup_insert_eq. reflexivity.
Qed.

Lemma events_recorded_minute_late clk identifier d clk' :
  clk + 1000 * (WINDOWS.MINUTE * 2) < clk' →
  events clk' (recorded clk identifier d) (minuteKey identifier) = ∅.
Proof.
  intros Hlt. unfold events, live, expired. rewrite recorded_expires_minute.
  destruct (Z.ltb_spec (clk + 1000 * (WINDOWS.MINUTE * 2)) clk'); [reflexivity | lia].
Qed.

Lemma events_recorded_day_late clk identifier d clk' :
  clk + 1000 * (WINDOWS.DAY * 2) < clk' →
  events clk' (recorded clk identifier d) (dayKey identifier) = ∅.
Proof.
  intros Hlt. unfold events, live, expired. rewrite recorded_expires_day.
  destruct (Z.ltb_spec (clk + 1000 * (WINDOWS.DAY * 2)) clk'); [reflexivity | lia].
Qed.

(** ** The check when the connection is in order *)

Lemma hd_up n sc : up_for (S n) sc = true → hd Up sc = Up.
Proof. destruct sc as [| [] ?]; simpl; try discriminate; reflexivity. Qed.

Lemma up_for_drop n sc : up_for (S n) sc = true → up_for n (drop 1 sc) = true.
Proof.
  unfold up_for. destruct sc as [| [] sc]; simpl; try discriminate; try tauto.
  intros _. rewrite take_nil. reflexivity.
Qed.

Lemma first_ranked_score_least (m : zset) :
  m ≠ ∅ →
  ∃ s, first_ranked_score m = Some s ∧ (∃ k, m !! k = Some s) ∧
       ∀ k s', m !! k = Some s' → s ≤ s'.
Proof.
  intros Hne. unfold first_ranked_score.
  destruct (ranked m) as [| p l] eqn:Hr; [apply ranked_nil in Hr; contradiction |].
  apply ranked_head_least in Hr. destruct Hr as [Hin Hleast].
  exists p.2. split; [reflexivity |]. split; [exists p.1; exact Hin | exact Hleast].
Qed.

Lemma events_since_nonempty clk d key cutoff :
  0 < events_since clk d key cutoff → events clk d key ≠ ∅.
Proof.
  unfold events_since. intros Hpos Hem. rewrite Hem in Hpos.
  rewrite map_filter_empty, map_size_empty in Hpos. lia.
Qed.

(** With the connection in order and four or more events in the minute
    window, the check denies, and the wait is worked out from the least
    score stored under the minute key. *)
Lemma checkRateLimit_denies identifier e :
  up_for 3 (script e) = true →
  4 ≤ events_since (clock e) (store e) (minuteKey identifier) (clock e / 1000 - 60) →
  ∃ s, oldest_overall (clock e) (store e) (minuteKey identifier) s ∧
       (checkRateLimit identifier e).1 =
         Return (rate_limit_decision (wait_time (Some s) (clock e / 1000))).
Proof.
  intros Hup Hcount. rewrite checkRateLimit_eq. cbv zeta.
  unfold counted, oldest_found.
  pose proof (hd_up _ _ Hup) as H1. apply up_for_drop in Hup.
  pose proof (hd_up _ _ Hup) as H2. apply up_for_drop in Hup.
  pose proof (hd_up _ _ Hup) as H3.
  change (script (advance 1 e)) with (drop 1 (script e)).
  change (clock (advance 1 e)) with (clock e).
  change (store (advance 1 e)) with (store e).
  rewrite H1, H2, H3. change WINDOWS.MINUTE with 60. change LIMITS.PER_MINUTE with 4.
  destruct (Z.leb_spec 4 (events_since (clock e) (store e) (minuteKey identifier)
                            (clock e / 1000 - 60))); [| lia].
  destruct (Z.ltb_spec 0 (events_since (clock e) (store e) (minuteKey identifier)
                            (clock e / 1000 - 60))); [| lia].
  destruct (first_ranked_score_least (events (clock e) (store e) (minuteKey identifier)))
    as [s [Hs Hleast]]; [apply (events_since_nonempty _ _ _ (clock e / 1000 - 60)); lia |].
  exists s. split; [exact Hleast |]. cbn [fst]. rewrite Hs. reflexivity.
Qed.

(** ** A burst of four requests *)

Lemma seconds_of_ms t : 1000 * t / 1000 = t.
Proof. rewrite Z.mul_comm. apply Z.div_mul. lia. Qed.

Lemma burst_records_fresh t0 identifier clk :
  ∃ d, burst_records t0 identifier (fresh clk) = (Return tt, Env (1000 * (t0 + 30)) [] d) ∧
       ∀ clk', 1000 * (t0 + 30) ≤ clk' ≤ 1000 * (t0 + 30) + 120000 →
               events clk' d (minuteKey identifier) = burst_events t0.
Proof.
  eexists. split.
  - unfold burst_records, bind, at_time, fresh. cbn [script store].
    rewrite recordRequest_up by reflexivity. cbn [script store clock drop].
    rewrite recordRequest_up by reflexivity. cbn [script store clock drop].
    rewrite recordRequest_up by reflexivity. cbn [script store clock drop].
    rewrite recordRequest_up by reflexivity. cbn [script store clock drop].
    reflexivity.
  - intros clk' Hclk. unfold burst_events.
    rewrite !events_recorded_minute by (unfold WINDOWS.MINUTE; lia).
    rewrite !seconds_of_ms. reflexivity.
Qed.

Lemma burst_events_lookup t0 k s :
  burst_events t0 !! k = Some s → s = t0 ∨ s = t0 + 10 ∨ s = t0 + 20 ∨ s = t0 + 30.
Proof.
  unfold burst_events. intros H.
  repeat (apply lookup_insert_Some in H; destruct H as [[_ <-] | [_ H]]; [tauto |]).
  rewrite lookup_empty in H. discriminate.
Qed.

Lemma burst_events_first t0 : burst_events t0 !! pretty (1000 * t0) = Some t0.
Proof.
  unfold burst_events.
  rewrite !lookup_insert_ne by (intros H; apply (inj pretty) in H; lia).
  apply lookup_insert_eq.
Qed.

Lemma burst_events_since t0 cutoff :
  cutoff ≤ t0 → Z.of_nat (size (filter (λ p : string * Z, cutoff ≤ p.2) (burst_events t0))) = 4.
Proof.
  intros Hc. rewrite map_filter_id.
  - unfold burst_events.
    rewrite !map_size_insert_None; [rewrite map_size_empty; reflexivity | ..];
      rewrite ?lookup_insert_ne by (intros H; apply (inj pretty) in H; lia);
      apply lookup_empty.
  - intros k s Hk. apply burst_events_lookup in Hk. simpl. lia.
Qed.

(** ** Client identity *)

Lemma truthy_available v : truthy v = true → ∃ s, available v s.
Proof.
  destruct v as [[| c r] |]; simpl; try discriminate.
  intros _. exists (String c r). split; [reflexivity | discriminate].
Qed.

Lemma falsy_unavailable v : truthy v = false → unavailable v.
Proof.
  destruct v as [[| c r] |]; simpl; try discriminate; intros _;
    [right | left]; reflexivity.
Qed.

Lemma string_app_cons c a b : String c a +:+ b = String c (a +:+ b).
Proof. reflexivity. Qed.

Lemma string_app_nil b : EmptyString +:+ b = b.
Proof. reflexivity. Qed.

Lemma split_hd f : first_token f (hd EmptyString (split "," f)).
Proof.
  induction f as [| c r IH].
  - split; [exact I | left; reflexivity].
  - cbn [split]. destruct (Ascii.eqb_spec c ","%char) as [-> | Hc].
    + split; [exact I | right; exists r; reflexivity].
    + destruct IH as [Hno Hsh].
      destruct (split "," r) as [| x xs]; cbn [hd] in *.
      * split; [split; [exact Hc | exact I] |].
        destruct Hsh as [-> | [rest ->]]; [left; reflexivity |].
        right. exists rest. reflexivity.
      * split; [split; assumption |].
        destruct Hsh as [-> | [rest ->]]; [left; reflexivity |].
        right. exists rest. reflexivity.
Qed.

Lemma trimStart_spec s :
  (∃ pre, s = pre +:+ trimStart s ∧ all_space pre) ∧
  ¬ space_at (first_char (trimStart s)).
Proof.
  induction s as [| c r [[pre [Heq Hpre]] Hfirst]].
  - split; [exists EmptyString; split; [reflexivity | exact I] | intros []].
  - cbn [trimStart]. destruct (is_space c) eqn:Hc.
    + split; [| exact Hfirst].
      exists (String c pre). split.
      * rewrite string_app_cons, <- Heq. reflexivity.
      * split; [rewrite Hc; exact I | exact Hpre].
    + split.
      * exists EmptyString. split; [reflexivity | exact I].
      * simpl. rewrite Hc. intros [].
Qed.

Lemma trimEnd_spec s :
  (∃ post, s = trimEnd s +:+ post ∧ all_space post) ∧
  ¬ space_at (last_char (trimEnd s)) ∧
  (¬ space_at (first_char s) → ¬ space_at (first_char (trimEnd s))).
Proof.
  induction s as [| c r [[post [Heq Hpost]] [Hlast _]]].
  - split; [exists EmptyString; split; [reflexivity | exact I] |].
    split; [intros [] | auto].
  - cbn [trimEnd]. destruct (trimEnd r) as [| c' r'] eqn:Hr.
    + destruct (is_space c) eqn:Hc.
      * split; [| split; [intros [] | simpl; rewrite Hc; tauto]].
        exists (String c post). split.
        -- rewrite string_app_nil in *. rewrite <- Heq. reflexivity.
        -- split; [rewrite Hc; exact I | exact Hpost].
      * split; [| split; simpl; rewrite Hc; tauto].
        exists post. split; [| exact Hpost].
        rewrite string_app_nil in Heq. rewrite string_app_cons, string_app_nil, <- Heq.
        reflexivity.
    + split; [| split; [exact Hlast | simpl; tauto]].
      exists post. split; [| exact Hpost].
      rewrite string_app_cons, <- Heq. reflexivity.
Qed.

Lemma trim_spec s : trimmed s (trim s).
Proof.
  unfold trim.
  destruct (trimStart_spec s) as [[pre [Hs Hpre]] Hfirst].
  destruct (trimEnd_spec (trimStart s)) as [[post [He Hpost]] [Hlast Hkeep]].
  split; [| split; [apply Hkeep, Hfirst | exact Hlast]].
  exists pre, post. split; [| split; assumption].
  rewrite <- He. exact Hs.
Qed.

(** C9.  For every request, [getClientIdentifier] produces an identity, and
    it is the one the resolution order prescribes, first match first: the
    first comma-separated token of [x-forwarded-for], trimmed; else
    [x-real-ip]; else the peer address ([req.ip], else
    [req.connection.remoteAddress]); else the literal "unknown".  A source
    counts as available when it is present and not the empty string. *)
Theorem getClientIdentifier_resolution (req : request) :
  identifies req (getClientIdentifier req).
Proof.
  unfold getClientIdentifier.
  destruct (truthy (headers req !! "x-forwarded-for")) eqn:Hf.
  - destruct (truthy_available _ Hf) as [f Hav].
    destruct Hav as [Hlook Hne]. rewrite Hlook. cbn [default].
    eapply by_forwarded; [split; eassumption | apply split_hd | apply trim_spec].
  - apply falsy_unavailable in Hf. unfold js_or.
    destruct (truthy (headers req !! "x-real-ip")) eqn:Hr.
    { destruct (truthy_available _ Hr) as [a [Ha Hne]]. rewrite Ha. cbn [default].
      apply by_real_ip; [exact Hf | split; assumption]. }
    apply falsy_unavailable in Hr.
    destruct (truthy (ip req)) eqn:Hi.
    { destruct (truthy_available _ Hi) as [a [Ha Hne]]. rewrite Ha. cbn [default].
      apply by_peer_ip; [exact Hf | exact Hr | split; assumption]. }
    apply falsy_unavailable in Hi.
    destruct (truthy (remoteAddress (connection_of req))) eqn:Hc.
    { destruct (truthy_available _ Hc) as [a [Ha Hne]]. rewrite Ha. cbn [default].
      apply by_peer_socket; [exact Hf | exact Hr | exact Hi | split; assumption]. }
    apply falsy_unavailable in Hc. cbn [default].
    apply by_sentinel; assumption.
Qed.

(** ** Failures of the store *)

(** No store failure ever reaches the [catch] of [checkRateLimit]: it
    always resolves, and never with the warning. *)
Lemma checkRateLimit_never_warns identifier e :
  ∃ dec e', checkRateLimit identifier e = (Return dec, e') ∧ warning dec = None.
Proof.
  rewrite checkRateLimit_eq. cbv zeta.
  destruct (LIMITS.PER_MINUTE <=? _); [eauto |].
  destruct (LIMITS.PER_DAY <=? _); eauto.
Qed.

(** C1 (defect in the code).  With four requests in the last minute on
    record, a check during which the client is not open, or during which
    every command is rejected, resolves to [{ allowed: true }] without the
    warning; and a check whose count succeeds but whose next query is
    rejected resolves to a denial. *)
Theorem checkRateLimit_store_down :
  (checkRateLimit "10.0.0.5" (Env 1700000035000 [Down; Down; Down] burst_store)).1 =
    Return {| allowed := true; reason := None; message := None; waitTime := None;
              resetTime := None; warning := None |} ∧
  (checkRateLimit "10.0.0.5" (Env 1700000035000 [Err; Err; Err] burst_store)).1 =
    Return {| allowed := true; reason := None; message := None; waitTime := None;
              resetTime := None; warning := None |} ∧
  (checkRateLimit "10.0.0.5" (Env 1700000035000 [Up; Err] burst_store)).1 =
    Return {| allowed := false; reason := Some "rate_limit";
              message := Some "Rate limit exceeded. Please wait 60 seconds before trying again.";
              waitTime := Some 60; resetTime := None; warning := None |} ∧
  (checkRateLimit "10.0.0.5" (Env 1700000035000 [] burst_store)).1 =
    Return {| allowed := false; reason := Some "rate_limit";
              message := Some "Rate limit exceeded. Please wait 25 seconds before trying again.";
              waitTime := Some 25; resetTime := None; warning := None |}.
Proof. repeat split; vm_compute; reflexivity. Qed.








(** ** The wait time *)

(** In the store left by the straggler traffic, at second 1700000130, the
    minute window starts at 1700000070 and holds four events, the oldest of
    them from 1700000100; the event from 1700000000 is still stored. *)
Lemma straggler_window :
  let key := minuteKey "10.0.0.5" in
  events_since 1700000130000 straggler_store key 1700000070 = 4 ∧
  oldest_since 1700000130000 straggler_store key 1700000070 1700000100 ∧
  oldest_overall 1700000130000 straggler_store key 1700000000.
Proof.
  cbv zeta. split; [vm_compute; reflexivity |].
  split.
  - split; [exists "1700000100000"; vm_compute; reflexivity |].
    split; [lia |].
    assert (Hall : map_Forall (λ (_ : string) (s' : Z), 1700000070 ≤ s' → 1700000100 ≤ s')
                     (events 1700000130000 straggler_store (minuteKey "10.0.0.5"))).
    { refine (bool_decide_unpack _ _). vm_compute. exact I. }
    intros m s' Hm Hs'. exact (Hall m s' Hm Hs').
  - split; [exists "1700000000000"; vm_compute; reflexivity |].
    assert (Hall : map_Forall (λ (_ : string) (s' : Z), 1700000000 ≤ s')
                     (events 1700000130000 straggler_store (minuteKey "10.0.0.5"))).
    { refine (bool_decide_unpack _ _). vm_compute. exact I. }
    intros m s' Hm. exact (Hall m s' Hm).
Qed.

(** C2 (defect in the code).  Four events are in the minute window and
    the oldest of them is from second 1700000100, thirty seconds before it
    leaves the window; the check answers with a wait of -70 seconds, worked
    out from an event that has left the window already. *)
Theorem checkRateLimit_wait_from_stale_event :
  let e := Env 1700000130000 [] straggler_store in
  let nowSeconds := clock e / 1000 in
  4 ≤ events_since (clock e) (store e) (minuteKey "10.0.0.5") (nowSeconds - 60) ∧
  oldest_since (clock e) (store e) (minuteKey "10.0.0.5") (nowSeconds - 60) 1700000100 ∧
  1700000100 + 60 - nowSeconds = 30 ∧
  (checkRateLimit "10.0.0.5" e).1 =
    Return {| allowed := false; reason := Some "rate_limit";
              message := Some "Rate limit exceeded. Please wait -70 seconds before trying again.";
              waitTime := Some (-70); resetTime := None; warning := None |}.
Proof.
  cbv zeta. destruct straggler_window as [Hcount [Hold _]].
  change (clock (Env 1700000130000 [] straggler_store) / 1000 - 60) with 1700000070.
  cbn [clock store]. rewrite Hcount.
  split; [lia |]. split; [exact Hold |]. split; [reflexivity |].
  vm_compute. reflexivity.
Qed.

(** C3 (defect in the code).  Asked for the oldest request since second
    1700000070, [getOldestRequestTime] answers 1700000000, the score of an
    event older than the cutoff, while the earliest event since the cutoff
    is from second 1700000100. *)
Theorem getOldestRequestTime_before_cutoff :
  let e := Env 1700000130000 [] straggler_store in
  (getOldestRequestTime (minuteKey "10.0.0.5") 1700000130 60 e).1
    = Return (Some 1700000000) ∧
  1700000000 < 1700000130 - 60 ∧
  oldest_since (clock e) (store e) (minuteKey "10.0.0.5") (1700000130 - 60) 1700000100.
Proof.
  cbv zeta. destruct straggler_window as [_ [Hold _]].
  split; [vm_compute; reflexivity |]. split; [lia | exact Hold].
Qed.

(** With the connection in order, what [getOldestRequestTime] answers is
    the least score of the whole set, whenever the window is not empty. *)
Lemma getOldestRequestTime_overall key nowSeconds windowSeconds e :
  up_for 2 (script e) = true →
  0 < events_since (clock e) (store e) key (nowSeconds - windowSeconds) →
  ∃ s, (getOldestRequestTime key nowSeconds windowSeconds e).1 = Return (Some s) ∧
       oldest_overall (clock e) (store e) key s.
Proof.
  intros Hup Hpos. rewrite getOldestRequestTime_eq. cbn [fst].
  unfold oldest_found.
  assert (Hl1 : hd Up (script e) = Up).
  { destruct (script e) as [| [] ?]; try discriminate; reflexivity. }
  assert (Hl2 : hd Up (drop 1 (script e)) = Up).
  { destruct (script e) as [| [] [| [] ?]]; try discriminate; reflexivity. }
  rewrite Hl1, Hl2.
  destruct (Z.ltb_spec 0 (events_since (clock e) (store e) key
                            (nowSeconds - windowSeconds))); [| lia].
  cbn [fst]. unfold first_ranked_score.
  destruct (ranked (events (clock e) (store e) key)) as [| p l] eqn:Hr.
  - apply ranked_nil in Hr. unfold events_since in Hpos. rewrite Hr in Hpos.
    rewrite map_filter_empty, map_size_empty in Hpos. lia.
  - apply ranked_head_least in Hr. destruct Hr as [Hin Hleast].
    exists p.2. split; [reflexivity |]. split; [exists p.1; exact Hin | exact Hleast].
Qed.

Lemma first_ranked_score_stored (m : zset) s :
  first_ranked_score m = Some s → ∃ k, m !! k = Some s.
Proof.
  unfold first_ranked_score. destruct (ranked m) as [| p l] eqn:Hr; [discriminate |].
  intros [= <-]. apply ranked_head_least in Hr. exists p.1. apply Hr.
Qed.

Lemma oldest_found_stored e key cutoff s :
  (oldest_found e key cutoff).1 = Some s →
  ∃ k, events (clock e) (store e) key !! k = Some s.
Proof.
  unfold oldest_found.
  destruct (hd Up (script e)); try discriminate.
  destruct (0 <? _); try discriminate.
  destruct (hd Up (drop 1 (script e))); try discriminate.
  apply first_ranked_score_stored.
Qed.

(** C10.  When no event stored under the minute key of the identity is
    from after the current second, a denial for the minute limit carries a
    wait of at most 60 seconds, whatever the condition of the connection.
    There is no positive lower bound: in the store left by the straggler
    traffic the wait is -70 seconds. *)
Theorem wait_time_bounds :
  (∀ identifier e dec e',
     (∀ m s, events (clock e) (store e) (minuteKey identifier) !! m = Some s →
             s ≤ clock e / 1000) →
     checkRateLimit identifier e = (Return dec, e') →
     reason dec = Some "rate_limit" →
     allowed dec = false ∧ ∃ w, waitTime dec = Some w ∧ w ≤ 60) ∧
  (∃ e dec e',
     (∀ m s, events (clock e) (store e) (minuteKey "10.0.0.5") !! m = Some s →
             s ≤ clock e / 1000) ∧
     checkRateLimit "10.0.0.5" e = (Return dec, e') ∧
     reason dec = Some "rate_limit" ∧ waitTime dec = Some (-70)).
Proof.
  split.
  - intros identifier e dec e' Hpast Hrun Hreason.
    rewrite checkRateLimit_eq in Hrun. cbv zeta in Hrun.
    destruct (LIMITS.PER_MINUTE <=? _).
    + injection Hrun as <- _. split; [reflexivity |].
      eexists. split; [reflexivity |].
      unfold wait_time.
      destruct (oldest_found _ _ _).1 as [t |] eqn:Hfound; [| unfold WINDOWS.MINUTE; lia].
      destruct (t =? 0); [unfold WINDOWS.MINUTE; lia |].
      apply oldest_found_stored in Hfound. destruct Hfound as [k Hk].
      apply Hpast in Hk. unfold WINDOWS.MINUTE. lia.
    + injection Hrun as <- _. destruct (LIMITS.PER_DAY <=? _); discriminate.
  - exists (Env 1700000130000 [] straggler_store). do 2 eexists.
    split; [| split; [vm_compute; reflexivity | split; reflexivity]].
    assert (Hall : map_Forall (λ (_ : string) (s : Z), s ≤ 1700000130)
                     (events 1700000130000 straggler_store (minuteKey "10.0.0.5"))).
    { refine (bool_decide_unpack _ _). vm_compute. exact I. }
    cbn [clock store]. change (1700000130000 / 1000) with 1700000130.
    intros m s Hm. exact (Hall m s Hm).
Qed.

Lemma wait_time_bounds_witness :
  let e := Env 1700000035000 [] burst_store in
  (∀ m s, events (clock e) (store e) (minuteKey "10.0.0.5") !! m = Some s →
          s ≤ clock e / 1000) ∧
  ∃ w, waitTime (rate_limit_decision 25) = Some w ∧ w ≤ 60.
Proof.
  cbv zeta.
  assert (Hpast : ∀ m s,
            events 1700000035000 burst_store (minuteKey "10.0.0.5") !! m = Some s →
            s ≤ 1700000035000 / 1000).
  { assert (Hall : map_Forall (λ (_ : string) (s : Z), s ≤ 1700000035000 / 1000)
                     (events 1700000035000 burst_store (minuteKey "10.0.0.5"))).
    { refine (bool_decide_unpack _ _). vm_compute. exact I. }
    intros m s Hm. exact (Hall m s Hm). }
  split; [exact Hpast |].
  refine (proj2 (proj1 wait_time_bounds "10.0.0.5" (Env 1700000035000 [] burst_store)
                   (rate_limit_decision 25) (Env 1700000035000 [] burst_store)
                   Hpast _ _)).
  - vm_compute. reflexivity.
  - reflexivity.
Defined.

(** ** The daily limit *)

(** C5.  When the minute count is below 4 and the day count is at least
    500, [checkRateLimit] denies with reason "daily_limit", the message
    about tomorrow, and no [waitTime].  First for the counts as
    [countRequestsInWindow] reports them, whatever the condition of the
    connection; then, with the connection in order for the two queries,
    for the numbers of events stored in the two windows. *)
Theorem checkRateLimit_daily_limit identifier e :
  let nowSeconds := clock e / 1000 in
  let daily :=
    {| allowed := false; reason := Some "daily_limit";
       message := Some "Daily limit of 500 requests reached. Please try again tomorrow.";
       waitTime := None; resetTime := Some "tomorrow"; warning := None |} in
  (∀ minuteCount dayCount,
     (countRequestsInWindow (minuteKey identifier) nowSeconds 60 e).1
       = Return minuteCount →
     minuteCount < 4 →
     (countRequestsInWindow (dayKey identifier) nowSeconds 86400 (advance 1 e)).1
       = Return dayCount →
     500 ≤ dayCount →
     (checkRateLimit identifier e).1 = Return daily) ∧
  (up_for 2 (script e) = true →
   events_since (clock e) (store e) (minuteKey identifier) (nowSeconds - 60) < 4 →
   500 ≤ events_since (clock e) (store e) (dayKey identifier) (nowSeconds - 86400) →
   (checkRateLimit identifier e).1 = Return daily).
Proof.
  cbv zeta.
  assert (Hgen : ∀ minuteCount dayCount,
    (countRequestsInWindow (minuteKey identifier) (clock e / 1000) 60 e).1
      = Return minuteCount →
    minuteCount < 4 →
    (countRequestsInWindow (dayKey identifier) (clock e / 1000) 86400 (advance 1 e)).1
      = Return dayCount →
    500 ≤ dayCount →
    (checkRateLimit identifier e).1 = Return daily_limit_decision).
  { intros minuteCount dayCount Hm Hlt Hd Hge.
    rewrite countRequestsInWindow_eq in Hm, Hd. cbn [fst] in Hm, Hd.
    injection Hm as Hm. injection Hd as Hd.
    rewrite checkRateLimit_eq. cbv zeta.
    change WINDOWS.MINUTE with 60. change WINDOWS.DAY with 86400.
    change LIMITS.PER_MINUTE with 4. change LIMITS.PER_DAY with 500.
    rewrite Hm, Hd.
    destruct (Z.leb_spec 4 minuteCount); [lia |].
    destruct (Z.leb_spec 500 dayCount); [reflexivity | lia]. }
  split; [exact Hgen |].
  intros Hup Hminute Hday.
  pose proof (hd_up _ _ Hup) as H1. apply up_for_drop in Hup.
  pose proof (hd_up _ _ Hup) as H2.
  assert (Hm : (countRequestsInWindow (minuteKey identifier) (clock e / 1000) 60 e).1 =
               Return (events_since (clock e) (store e) (minuteKey identifier)
                         (clock e / 1000 - 60))).
  { rewrite countRequestsInWindow_eq. unfold counted. rewrite H1. reflexivity. }
  assert (Hd : (countRequestsInWindow (dayKey identifier) (clock e / 1000) 86400
                  (advance 1 e)).1 =
               Return (events_since (clock e) (store e) (dayKey identifier)
                         (clock e / 1000 - 86400))).
  { rewrite countRequestsInWindow_eq. unfold counted.
    change (script (advance 1 e)) with (drop 1 (script e)).
    rewrite H2. reflexivity. }
  exact (Hgen _ _ Hm Hminute Hd Hday).
Qed.

Lemma checkRateLimit_daily_limit_witness :
  let e := Env 1700049950000 [] busy_day_store in
  events_since (clock e) (store e) (minuteKey "10.0.0.5") (clock e / 1000 - 60) = 1 ∧
  events_since (clock e) (store e) (dayKey "10.0.0.5") (clock e / 1000 - 86400) = 500 ∧
  (checkRateLimit "10.0.0.5" e).1 = Return daily_limit_decision.
Proof.
  cbv zeta. split; [vm_compute; reflexivity |]. split; [vm_compute; reflexivity |].
  apply (proj2 (checkRateLimit_daily_limit "10.0.0.5"
                  (Env 1700049950000 [] busy_day_store)));
    [reflexivity | vm_compute; reflexivity | vm_compute; discriminate].
Defined.

(** ** The burst at the epoch *)

(** At the epoch itself the answer differs: with the clock reading 0, 10,
    20 and 30 seconds at the four records and 35 seconds at the check, the
    oldest event has the score 0, which [checkRateLimit] takes for a
    missing one, and the wait is 60 seconds.  No clock of a running server
    reads less than a second. *)
Remark burst_at_epoch :
  let d := store (burst_records 0 "10.0.0.5" (fresh 0)).2 in
  events_since 35000 d (minuteKey "10.0.0.5") (35 - 60) = 4 ∧
  (getOldestRequestTime (minuteKey "10.0.0.5") 35 60 (Env 35000 [] d)).1
    = Return (Some 0) ∧
  wait_time (Some 0) 35 = 60 ∧
  (burst 0 "10.0.0.5" (fresh 0)).1 =
    Return {| allowed := false; reason := Some "rate_limit";
              message := Some "Rate limit exceeded. Please wait 60 seconds before trying again.";
              waitTime := Some 60; resetTime := None; warning := None |}.
Proof. cbv zeta. repeat split; vm_compute; reflexivity. Qed.

(** ** The scenario of four requests and a check *)

Lemma spaced_store_events identifier start :
  events (start + 35000) (spaced_store identifier start) (minuteKey identifier)
    = spaced_events start.
Proof.
  unfold spaced_events.
  rewrite !events_recorded_minute by (unfold WINDOWS.MINUTE; lia).
  replace ((start + 10000) / 1000) with (start / 1000 + 10)
    by (Z.div_mod_to_equations; lia).
  replace ((start + 20000) / 1000) with (start / 1000 + 20)
    by (Z.div_mod_to_equations; lia).
  replace ((start + 30000) / 1000) with (start / 1000 + 30)
    by (Z.div_mod_to_equations; lia).
  reflexivity.
Qed.

Lemma spaced_events_lookup start k s :
  spaced_events start !! k = Some s →
  s = start / 1000 ∨ s = start / 1000 + 10 ∨ s = start / 1000 + 20 ∨
  s = start / 1000 + 30.
Proof.
  unfold spaced_events. intros H.
  repeat (apply lookup_insert_Some in H; destruct H as [[_ <-] | [_ H]]; [tauto |]).
  rewrite lookup_empty in H. discriminate.
Qed.

Lemma spaced_events_first start : spaced_events start !! pretty start = Some (start / 1000).
Proof.
  unfold spaced_events.
  rewrite !lookup_insert_ne by (intros H; apply (inj pretty) in H; lia).
  apply lookup_insert_eq.
Qed.

Lemma spaced_events_since start cutoff :
  cutoff ≤ start / 1000 →
  Z.of_nat (size (filter (λ p : string * Z, cutoff ≤ p.2) (spaced_events start))) = 4.
Proof.
  intros Hc. rewrite map_filter_id.
  - unfold spaced_events.
    rewrite !map_size_insert_None; [rewrite map_size_empty; reflexivity | ..];
      rewrite ?lookup_insert_ne by (intros H; apply (inj pretty) in H; lia);
      apply lookup_empty.
  - intros k s Hk. apply spaced_events_lookup in Hk. simpl. lia.
Qed.

Lemma spaced_store_check identifier start :
  1000 ≤ start →
  (checkRateLimit identifier (Env (start + 35000) [] (spaced_store identifier start))).1
    = Return (rate_limit_decision 25).
Proof.
  intros Hstart.
  set (e := Env (start + 35000) [] (spaced_store identifier start)).
  assert (Hev : events (clock e) (store e) (minuteKey identifier) = spaced_events start)
    by apply spaced_store_events.
  assert (Hnow : clock e / 1000 = start / 1000 + 35)
    by (unfold e; cbn [clock]; Z.div_mod_to_equations; lia).
  destruct (checkRateLimit_denies identifier e) as [s [[[k Hk] Hleast] Hrun]].
  - reflexivity.
  - unfold events_since. rewrite Hev, Hnow, spaced_events_since; lia.
  - rewrite Hrun, Hnow. rewrite Hev in Hk, Hleast.
    specialize (Hleast _ _ (spaced_events_first start)).
    apply spaced_events_lookup in Hk.
    assert (s = start / 1000) as -> by lia.
    unfold wait_time.
    destruct (Z.eqb_spec (start / 1000) 0) as [H0 | _];
      [exfalso; revert H0; Z.div_mod_to_equations; lia |].
    replace (start / 1000 + WINDOWS.MINUTE - (start / 1000 + 35)) with 25
      by (unfold WINDOWS.MINUTE; lia).
    reflexivity.
Qed.

Lemma run_calls_record t identifier cs clk d :
  (run_calls ((t, record identifier) :: cs) (Env clk [] d)).1 =
  match (run_calls cs (Env t [] (recorded t identifier d))).1 with
  | Return ds => Return (None :: ds)
  | Throw x => Throw x
  end.
Proof.
  cbn [run_calls]. unfold bind, at_time. cbn [script store].
  rewrite recordRequest_up by reflexivity. cbn [clock script store drop].
  destruct (run_calls cs _) as [[ds | x] e']; reflexivity.
Qed.

Lemma run_calls_check t identifier clk d :
  (run_calls [(t, check identifier)] (Env clk [] d)).1 =
  match (checkRateLimit identifier (Env t [] d)).1 with
  | Return dec => Return [Some dec]
  | Throw x => Throw x
  end.
Proof.
  cbn [run_calls]. unfold bind, at_time. cbn [script store].
  destruct (checkRateLimit identifier _) as [[dec | x] e']; reflexivity.
Qed.

(** C6.  The scenario, its times counted from the moment [start] of the
    first request, any clock reading from one second after the epoch on:
    for the identity "10.0.0.5", as for any other, and an empty store,
    requests recorded at 0, 10, 20 and 30 seconds and a check at 35
    seconds are answered with the denial for the minute limit and a wait
    of 25 seconds. *)
Theorem scenario_wait_25 identifier start clk :
  1000 ≤ start →
  (run_calls [(start, record identifier); (start + 10000, record identifier);
              (start + 20000, record identifier); (start + 30000, record identifier);
              (start + 35000, check identifier)] (fresh clk)).1 =
  Return [None; None; None; None;
          Some {| allowed := false; reason := Some "rate_limit";
                  message := Some "Rate limit exceeded. Please wait 25 seconds before trying again.";
                  waitTime := Some 25; resetTime := None; warning := None |}].
Proof.
  intros Hstart. unfold fresh.
  rewrite !run_calls_record, run_calls_check.
  rewrite (spaced_store_check identifier start Hstart). reflexivity.
Qed.

Lemma scenario_wait_25_witness :
  1000 ≤ 1700000000123 ∧
  (run_calls [(1700000000123, record "10.0.0.5"); (1700000010123, record "10.0.0.5");
              (1700000020123, record "10.0.0.5"); (1700000030123, record "10.0.0.5");
              (1700000035123, check "10.0.0.5")] (fresh 0)).1 =
  Return [None; None; None; None;
          Some {| allowed := false; reason := Some "rate_limit";
                  message := Some "Rate limit exceeded. Please wait 25 seconds before trying again.";
                  waitTime := Some 25; resetTime := None; warning := None |}].
Proof.
  split; [lia |]. apply (scenario_wait_25 "10.0.0.5" 1700000000123 0). lia.
Defined.

(** ** Expiry *)

(** C7 (as stated, refuted).  The request recorded at 1700000000000 ms is
    still stored under the minute key at 1700000121000 ms, more than 120
    seconds later: the request recorded at 1700000100000 ms gave the key
    a new time-to-live. *)
Lemma event_outlives_two_windows :
  1700000000000 + 1000 * (2 * 60) < 1700000121000 ∧
  present 1700000121000 straggler_store (minuteKey "10.0.0.5") "1700000000000".
Proof.
  split; [lia |]. exists 1700000000. vm_compute. reflexivity.
Qed.

(** C7 (amended).  A [recordRequest] that reaches the store gives both
    keys of the identity a time-to-live of twice their window from that
    moment.  Once it has run out (and nothing was recorded for the
    identity in between) no event is left under the key; until then the
    key holds the new event and every event it held before, however old. *)
Theorem recordRequest_expiry identifier e :
  up_for 4 (script e) = true →
  let d' := store (recordRequest identifier e).2 in
  (∀ clk', clock e + 1000 * (2 * 60) < clk' →
           events clk' d' (minuteKey identifier) = ∅) ∧
  (∀ clk', clock e + 1000 * (2 * 86400) < clk' →
           events clk' d' (dayKey identifier) = ∅) ∧
  (∀ clk', clk' ≤ clock e + 1000 * (2 * 60) →
           present clk' d' (minuteKey identifier) (pretty (clock e)) ∧
           ∀ m, present (clock e) (store e) (minuteKey identifier) m →
                present clk' d' (minuteKey identifier) m) ∧
  (∀ clk', clk' ≤ clock e + 1000 * (2 * 86400) →
           present clk' d' (dayKey identifier) (pretty (clock e)) ∧
           ∀ m, present (clock e) (store e) (dayKey identifier) m →
                present clk' d' (dayKey identifier) m).
Proof.
  intros Hup. rewrite recordRequest_up by exact Hup. cbv zeta. cbn [snd store].
  split; [| split; [| split]].
  - intros clk' Hlate. apply events_recorded_minute_late.
    unfold WINDOWS.MINUTE. lia.
  - intros clk' Hlate. apply events_recorded_day_late.
    unfold WINDOWS.DAY. lia.
  - intros clk' Hin. unfold present.
    rewrite events_recorded_minute by (unfold WINDOWS.MINUTE; lia).
    split; [rewrite lookup_insert_eq; eauto |].
    intros m [s Hm]. destruct (decide (pretty (clock e) = m)) as [<- | Hne].
    + rewrite lookup_insert_eq. eauto.
    + rewrite lookup_insert_ne by exact Hne. eauto.
  - intros clk' Hin. unfold present.
    rewrite events_recorded_day by (unfold WINDOWS.DAY; lia).
    split; [rewrite lookup_insert_eq; eauto |].
    intros m [s Hm]. destruct (decide (pretty (clock e) = m)) as [<- | Hne].
    + rewrite lookup_insert_eq. eauto.
    + rewrite lookup_insert_ne by exact Hne. eauto.
Qed.

Lemma recordRequest_expiry_witness :
  let e := Env 1700000100000 [] (store (recordRequest "10.0.0.5" (fresh 1700000000000)).2) in
  up_for 4 (script e) = true ∧
  events 1700000220001 (store (recordRequest "10.0.0.5" e).2) (minuteKey "10.0.0.5") = ∅ ∧
  present 1700000220000 (store (recordRequest "10.0.0.5" e).2) (minuteKey "10.0.0.5")
    "1700000000000".
Proof.
  cbv zeta. split; [reflexivity |].
  pose proof (recordRequest_expiry "10.0.0.5"
    (Env 1700000100000 [] (store (recordRequest "10.0.0.5" (fresh 1700000000000)).2))
    eq_refl) as [Hgone [_ [Hkept _]]].
  split.
  - apply Hgone. cbn [clock]. lia.
  - apply Hkept; [cbn [clock]; lia |]. exists 1700000000. vm_compute. reflexivity.
Defined.

(** ** The status query *)

(** C8.  Any number of calls of [getRateLimitStatus] in a row, for any
    identity and in any environment, resolves and leaves the store and the
    clock as they were; all it uses up is the connection's condition at its
    two queries per call.  So a sequence of checks and records that follows
    runs as it does without the status calls from the same store, clock and
    remaining connection conditions; with the connection in order
    throughout, exactly as it does from the environment before them. *)
Theorem getRateLimitStatus_no_mutation (n : nat) (identifier : string) :
  (∀ e, (repeat_status n identifier e).1 = Return tt ∧
        store (repeat_status n identifier e).2 = store e ∧
        clock (repeat_status n identifier e).2 = clock e ∧
        ∀ cs, (_ <- repeat_status n identifier ;; run_calls cs) e =
              run_calls cs (advance (2 * n) e)) ∧
  (∀ cs clk d, (_ <- repeat_status n identifier ;; run_calls cs) (Env clk [] d) =
               run_calls cs (Env clk [] d)).
Proof.
  split.
  - intros e. rewrite repeat_status_eq. repeat split.
    intros cs. unfold bind at 1. rewrite repeat_status_eq. reflexivity.
  - intros cs clk d. unfold bind at 1. rewrite repeat_status_eq.
    unfold advance. cbn [clock script store]. rewrite drop_nil. reflexivity.
Qed.

(** ** [recordRequest] under any condition of the connection *)

Lemma ignore_zadd_eq key sc member e :
  ignore (kv.zadd key sc member) e =
  (match hd Up (script e) with Err => Throw SocketError | _ => Return tt end,
   Env (clock e) (drop 1 (script e))
       (zadd_under (hd Up (script e)) (clock e) key sc member (store e))).
Proof.
  unfold ignore, kv.zadd, bind, next_link, zadd_under.
  destruct e as [clk sc' d]. cbn [clock script store].
  destruct (hd Up sc'); reflexivity.
Qed.

Lemma ignore_expire_eq key seconds e :
  ignore (kv.expire key seconds) e =
  (match hd Up (script e) with Err => Throw SocketError | _ => Return tt end,
   Env (clock e) (drop 1 (script e))
       (expire_under (hd Up (script e)) (clock e) key seconds (store e))).
Proof.
  unfold ignore, kv.expire, bind, next_link, expire_under.
  destruct e as [clk sc' d]. cbn [clock script store].
  destruct (hd Up sc'); reflexivity.
Qed.

Lemma recordRequest_eq identifier e :
  recordRequest identifier e =
  (Return tt,
   Env (clock e) (drop 4 (script e))
       (recorded_under (script e) (clock e) identifier (store e))).
Proof.
  unfold recordRequest, try_catch, bind, Date_now. cbn [Promise_all].
  rewrite ignore_zadd_eq. cbn [clock script store].
  rewrite ignore_zadd_eq. cbn [clock script store].
  rewrite ignore_expire_eq. cbn [clock script store].
  rewrite ignore_expire_eq. cbn [clock script store].
  rewrite !drop_drop. cbn [Nat.add]. unfold recorded_under. cbv zeta.
  destruct (hd Up (script e)), (hd Up (drop 1 (script e))),
    (hd Up (drop 2 (script e))), (hd Up (drop 3 (script e)));
    reflexivity.
Qed.

(** * Further properties of the limiter *)

(** ** What the entry points never do *)

(** [checkRateLimit] always resolves, after two or three [kv] calls, with
    the store and the clock as they were, and never with the warning: no
    failure of the store reaches its [catch]. *)
Theorem checkRateLimit_total_readonly identifier e :
  ∃ dec k, checkRateLimit identifier e = (Return dec, advance k e) ∧
           (2 ≤ k ≤ 3)%nat ∧ warning dec = None.
Proof.
  rewrite checkRateLimit_eq. cbv zeta.
  destruct (LIMITS.PER_MINUTE <=? _).
  - eexists _, _. split; [reflexivity |]. split; [| reflexivity].
    unfold oldest_found.
    destruct (hd Up (script (advance 1 e))); cbn [snd]; try lia.
    destruct (0 <? _); cbn [snd]; lia.
  - exists (if LIMITS.PER_DAY <=?
                 counted (advance 1 e) (dayKey identifier) (clock e / 1000 - WINDOWS.DAY)
            then daily_limit_decision else allow_decision), 2%nat.
    split; [reflexivity |]. split; [lia |].
    destruct (LIMITS.PER_DAY <=? _); reflexivity.
Qed.


Lemma counted_nonneg e key cutoff : 0 ≤ counted e key cutoff.
Proof. unfold counted, events_since. destruct (hd Up (script e)); lia. Qed.

(** [getRateLimitStatus] always resolves, after two [kv] calls and with
    the store as it was, and never with the [error] answer.  The counts it
    reports are not negative, and each remaining allowance is the limit
    less the count, cut off at 0: between 0 and the limit. *)
Theorem getRateLimitStatus_bounds identifier e :
  ∃ st, getRateLimitStatus identifier e = (Return st, advance 2 e) ∧
        error st = None ∧ limits st = Quota 4 500 ∧
        0 ≤ requestsLastMinute st ∧ 0 ≤ requestsToday st ∧
        perMinute (remaining st) = Z.max 0 (4 - requestsLastMinute st) ∧
        perDay (remaining st) = Z.max 0 (500 - requestsToday st) ∧
        0 ≤ perMinute (remaining st) ≤ 4 ∧ 0 ≤ perDay (remaining st) ≤ 500.
Proof.
  rewrite getRateLimitStatus_eq. cbv zeta. eexists. split; [reflexivity |].
  cbn [error limits requestsLastMinute requestsToday remaining perMinute perDay].
  pose proof (counted_nonneg e (minuteKey identifier) (clock e / 1000 - WINDOWS.MINUTE)).
  pose proof (counted_nonneg (advance 1 e) (dayKey identifier)
                (clock e / 1000 - WINDOWS.DAY)).
  unfold LIMITS.PER_MINUTE, LIMITS.PER_DAY. repeat split; try reflexivity; lia.
Qed.

(** The check and the status query agree, in every environment: the check
    allows exactly when the status query, run in its place, reports an
    allowance left in both windows. *)
Theorem checkRateLimit_agrees_with_status identifier e :
  match (checkRateLimit identifier e).1, (getRateLimitStatus identifier e).1 with
  | Return dec, Return st =>
      allowed dec = true ↔
      0 < perMinute (remaining st) ∧ 0 < perDay (remaining st)
  | _, _ => False
  end.
Proof.
  rewrite checkRateLimit_eq, getRateLimitStatus_eq. cbv zeta.
  unfold LIMITS.PER_MINUTE, LIMITS.PER_DAY.
  destruct (Z.leb_spec 4 (counted e (minuteKey identifier)
                            (clock e / 1000 - WINDOWS.MINUTE))) as [Hm | Hm].
  - cbn. split; [discriminate | lia].
  - destruct (Z.leb_spec 500 (counted (advance 1 e) (dayKey identifier)
                                (clock e / 1000 - WINDOWS.DAY))) as [Hd | Hd].
    + cbn. split; [discriminate | lia].
    + cbn. split; [lia | reflexivity].
Qed.

(** ** The decision when the connection is in order *)

(** With the connection in order, the decision follows the numbers of
    events stored in the two windows: the minute limit is looked at first,
    the daily limit only below it, and a request is allowed only below
    both.  An allowing answer carries nothing but [allowed]. *)
Theorem checkRateLimit_decides identifier e :
  up_for 3 (script e) = true →
  let minuteCount :=
    events_since (clock e) (store e) (minuteKey identifier) (clock e / 1000 - 60) in
  let dayCount :=
    events_since (clock e) (store e) (dayKey identifier) (clock e / 1000 - 86400) in
  ∃ dec, (checkRateLimit identifier e).1 = Return dec ∧
    (reason dec = Some "rate_limit" ↔ 4 ≤ minuteCount) ∧
    (reason dec = Some "daily_limit" ↔ minuteCount < 4 ∧ 500 ≤ dayCount) ∧
    (allowed dec = true ↔ minuteCount < 4 ∧ dayCount < 500) ∧
    (allowed dec = true → dec = allow_decision).
Proof.
  intros Hup. cbv zeta. rewrite checkRateLimit_eq. cbv zeta. unfold counted.
  pose proof (hd_up _ _ Hup) as H1. apply up_for_drop in Hup.
  pose proof (hd_up _ _ Hup) as H2.
  change (script (advance 1 e)) with (drop 1 (script e)).
  change (clock (advance 1 e)) with (clock e).
  change (store (advance 1 e)) with (store e).
  rewrite H1, H2. change WINDOWS.MINUTE with 60. change WINDOWS.DAY with 86400.
  change LIMITS.PER_MINUTE with 4. change LIMITS.PER_DAY with 500.
  destruct (Z.leb_spec 4 (events_since (clock e) (store e) (minuteKey identifier)
                            (clock e / 1000 - 60))) as [Hm | Hm].
  - eexists. split; [reflexivity |]. cbn [reason allowed rate_limit_decision].
    intuition (try discriminate; try lia).
  - destruct (Z.leb_spec 500 (events_since (clock e) (store e) (dayKey identifier)
                                (clock e / 1000 - 86400))) as [Hd | Hd].
    + eexists. split; [reflexivity |]. cbn [reason allowed daily_limit_decision].
      intuition (try discriminate; try lia).
    + eexists. split; [reflexivity |]. cbn [reason allowed allow_decision].
      intuition (try discriminate; try lia).
Qed.

Lemma checkRateLimit_decides_witness :
  let e := Env 1700000035000 [] burst_store in
  up_for 3 (script e) = true ∧
  ∃ dec, (checkRateLimit "10.0.0.5" e).1 = Return dec ∧
         (reason dec = Some "rate_limit" ↔
          4 ≤ events_since (clock e) (store e) (minuteKey "10.0.0.5")
                (clock e / 1000 - 60)).
Proof.
  cbv zeta. split; [reflexivity |].
  destruct (checkRateLimit_decides "10.0.0.5" (Env 1700000035000 [] burst_store) eq_refl)
    as [dec [Hrun [Hrate _]]].
  exists dec. split; [exact Hrun | exact Hrate].
Defined.

(** ** The wait time *)

(** Where the code is right about the wait: with the connection in order,
    four or more events stored under the minute key, all of them inside
    the window, none from the future and none from second 0, the wait is
    worked out from the oldest event of the window, and lies between 0 and
    60 seconds. *)
Theorem checkRateLimit_wait_in_window identifier e :
  up_for 3 (script e) = true →
  let nowSeconds := clock e / 1000 in
  4 ≤ events_since (clock e) (store e) (minuteKey identifier) (nowSeconds - 60) →
  (∀ m s, events (clock e) (store e) (minuteKey identifier) !! m = Some s →
          nowSeconds - 60 ≤ s ≤ nowSeconds ∧ s ≠ 0) →
  ∃ oldest,
    oldest_since (clock e) (store e) (minuteKey identifier) (nowSeconds - 60) oldest ∧
    (checkRateLimit identifier e).1 =
      Return (rate_limit_decision (oldest + 60 - nowSeconds)) ∧
    0 ≤ oldest + 60 - nowSeconds ≤ 60.
Proof.
  intros Hup. cbv zeta. intros Hcount Hall.
  destruct (checkRateLimit_denies identifier e Hup Hcount)
    as [s [[[k Hk] Hleast] Hrun]].
  destruct (Hall _ _ Hk) as [Hin Hnz].
  exists s. split; [| split; [| lia]].
  - split; [exists k; exact Hk |]. split; [lia |].
    intros m s' Hm _. exact (Hleast m s' Hm).
  - rewrite Hrun. unfold wait_time.
    destruct (Z.eqb_spec s 0); [contradiction | reflexivity].
Qed.

Lemma checkRateLimit_wait_in_window_witness :
  let e := Env 1700000035000 [] burst_store in
  ∃ oldest,
    oldest_since (clock e) (store e) (minuteKey "10.0.0.5") (clock e / 1000 - 60) oldest ∧
    (checkRateLimit "10.0.0.5" e).1 =
      Return (rate_limit_decision (oldest + 60 - clock e / 1000)) ∧
    0 ≤ oldest + 60 - clock e / 1000 ≤ 60.
Proof.
  cbv zeta.
  apply (checkRateLimit_wait_in_window "10.0.0.5" (Env 1700000035000 [] burst_store)).
  - reflexivity.
  - vm_compute. discriminate.
  - assert (Hall : map_Forall
              (λ (_ : string) (s : Z), 1700000035 - 60 ≤ s ≤ 1700000035 ∧ s ≠ 0)
              (events 1700000035000 burst_store (minuteKey "10.0.0.5"))).
    { refine (bool_decide_unpack _ _). vm_compute. exact I. }
    cbn [clock store]. change (1700000035000 / 1000) with 1700000035.
    intros m s Hm. exact (Hall m s Hm).
Defined.

(** Four requests ten seconds apart, from any second but 0 on and for any
    identity, then a check five seconds after the last: the answer is a
    denial with 25 seconds to wait. *)
Theorem burst_wait identifier t0 clk :
  t0 ≠ 0 →
  (burst t0 identifier (fresh clk)).1 =
    Return {| allowed := false; reason := Some "rate_limit";
              message := Some "Rate limit exceeded. Please wait 25 seconds before trying again.";
              waitTime := Some 25; resetTime := None; warning := None |}.
Proof.
  intros Ht0. unfold burst, bind at 1.
  destruct (burst_records_fresh t0 identifier clk) as [d [-> Hev]].
  unfold at_time. cbn [script store].
  set (e := Env (1000 * (t0 + 35)) [] d).
  assert (Hevents : events (clock e) (store e) (minuteKey identifier) = burst_events t0).
  { apply Hev. unfold e. cbn [clock]. lia. }
  assert (Hnow : clock e / 1000 = t0 + 35) by apply seconds_of_ms.
  destruct (checkRateLimit_denies identifier e) as [s [[[k Hk] Hleast] Hrun]].
  - reflexivity.
  - unfold events_since. rewrite Hevents, Hnow, burst_events_since; lia.
  - rewrite Hrun, Hnow. rewrite Hevents in Hk, Hleast.
    specialize (Hleast _ _ (burst_events_first t0)).
    apply burst_events_lookup in Hk.
    assert (s = t0) as -> by lia.
    unfold wait_time. destruct (Z.eqb_spec t0 0); [contradiction |].
    replace (t0 + WINDOWS.MINUTE - (t0 + 35)) with 25 by (unfold WINDOWS.MINUTE; lia).
    reflexivity.
Qed.

Lemma burst_wait_witness :
  waitTime <$> (match (burst 1700000000 "10.0.0.5" (fresh 0)).1 with
                | Return dec => Some dec
                | Throw _ => None
                end) = Some (Some 25).
Proof.
  rewrite (burst_wait "10.0.0.5" 1700000000 0) by lia. reflexivity.
Defined.

Lemma getOldestRequestTime_overall_witness :
  let e := Env 1700000130000 [] straggler_store in
  ∃ s, (getOldestRequestTime (minuteKey "10.0.0.5") 1700000130 60 e).1
         = Return (Some s) ∧
       oldest_overall (clock e) (store e) (minuteKey "10.0.0.5") s.
Proof.
  cbv zeta.
  refine (getOldestRequestTime_overall (minuteKey "10.0.0.5") 1700000130 60
            (Env 1700000130000 [] straggler_store) eq_refl _).
  vm_compute. reflexivity.
Defined.

(** ** One identity does not touch another *)

Lemma minuteKey_inj a b : minuteKey a = minuteKey b → a = b.
Proof. unfold minuteKey. apply (inj (String.app _)). Qed.

Lemma dayKey_inj a b : dayKey a = dayKey b → a = b.
Proof. unfold dayKey. apply (inj (String.app _)). Qed.

Lemma minuteKey_dayKey_ne a b : minuteKey a ≠ dayKey b.
Proof. unfold minuteKey, dayKey. cbn. discriminate. Qed.

Lemma zadd_under_other l clk key' sc member d key clk' :
  key ≠ key' → live clk' (zadd_under l clk key' sc member d) key = live clk' d key.
Proof.
  intros Hne. destruct l; try reflexivity.
  unfold zadd_under, ZADD. cbn [snd].
  destruct (expired clk d key'); unfold live, expired; cbn [zsets expires];
    rewrite ?lookup_delete_ne by congruence; rewrite lookup_insert_ne by congruence;
    reflexivity.
Qed.

Lemma expire_under_other l clk key' seconds d key clk' :
  key ≠ key' → live clk' (expire_under l clk key' seconds d) key = live clk' d key.
Proof.
  intros Hne. destruct l; try reflexivity.
  unfold expire_under, EXPIRE. cbn [snd].
  destruct (live clk d key'); [| reflexivity].
  unfold live, expired. cbn [zsets expires].
  rewrite lookup_insert_ne by congruence. reflexivity.
Qed.

Lemma recorded_under_other ls clk a d key clk' :
  key ≠ minuteKey a → key ≠ dayKey a →
  live clk' (recorded_under ls clk a d) key = live clk' d key.
Proof.
  intros Hm Hd. unfold recorded_under. cbv zeta.
  rewrite expire_under_other, expire_under_other, zadd_under_other, zadd_under_other;
    [reflexivity | assumption ..].
Qed.

(** The decision of a check and the answer of a status query depend on
    the store only through the events under the two keys of the identity. *)
Lemma checkRateLimit_ext identifier clk sc d d' :
  events clk d (minuteKey identifier) = events clk d' (minuteKey identifier) →
  events clk d (dayKey identifier) = events clk d' (dayKey identifier) →
  (checkRateLimit identifier (Env clk sc d)).1 =
  (checkRateLimit identifier (Env clk sc d')).1.
Proof.
  intros Hm Hd. rewrite !checkRateLimit_eq. cbv zeta.
  unfold counted, oldest_found, events_since, advance. cbn [clock script store].
  rewrite Hm, Hd. destruct (LIMITS.PER_MINUTE <=? _); reflexivity.
Qed.

Lemma getRateLimitStatus_ext identifier clk sc d d' :
  events clk d (minuteKey identifier) = events clk d' (minuteKey identifier) →
  events clk d (dayKey identifier) = events clk d' (dayKey identifier) →
  (getRateLimitStatus identifier (Env clk sc d)).1 =
  (getRateLimitStatus identifier (Env clk sc d')).1.
Proof.
  intros Hm Hd. rewrite !getRateLimitStatus_eq. cbv zeta.
  unfold counted, events_since, advance. cbn [clock script store].
  rewrite Hm, Hd. reflexivity.
Qed.

(** Recording a request of one identity, whatever the condition of the
    connection, changes nothing of what a later check or status query of
    another identity answers. *)
Theorem recordRequest_other_identity a b e clk' sc :
  a ≠ b →
  (checkRateLimit b (Env clk' sc (store (recordRequest a e).2))).1 =
    (checkRateLimit b (Env clk' sc (store e))).1 ∧
  (getRateLimitStatus b (Env clk' sc (store (recordRequest a e).2))).1 =
    (getRateLimitStatus b (Env clk' sc (store e))).1.
Proof.
  intros Hab. rewrite recordRequest_eq. cbn [snd store].
  assert (Hm : events clk' (recorded_under (script e) (clock e) a (store e)) (minuteKey b)
               = events clk' (store e) (minuteKey b)).
  { unfold events. rewrite recorded_under_other; [reflexivity | |].
    - intros H. apply minuteKey_inj in H. congruence.
    - apply minuteKey_dayKey_ne. }
  assert (Hd : events clk' (recorded_under (script e) (clock e) a (store e)) (dayKey b)
               = events clk' (store e) (dayKey b)).
  { unfold events. rewrite recorded_under_other; [reflexivity | |].
    - apply not_eq_sym, minuteKey_dayKey_ne.
    - intros H. apply dayKey_inj in H. congruence. }
  split; [apply checkRateLimit_ext | apply getRateLimitStatus_ext]; assumption.
Qed.

Lemma recordRequest_other_identity_witness :
  (checkRateLimit "10.0.0.6"
     (Env 1700000035000 [] (store (recordRequest "10.0.0.5" (fresh 1700000030000)).2))).1 =
  (checkRateLimit "10.0.0.6" (Env 1700000035000 [] (store (fresh 1700000030000)))).1.
Proof.
  apply (recordRequest_other_identity "10.0.0.5" "10.0.0.6" (fresh 1700000030000)).
  discriminate.
Defined.

(** ** The window and the recorded events *)

(** One request recorded on an empty store at [clk] milliseconds, counted
    at [clk'] milliseconds: it is in the minute window as long as the
    second of the count is at most 60 past the second of the record, both
    ends included, so over 61 different seconds. *)
Theorem recorded_event_counted identifier clk clk' :
  (countRequestsInWindow (minuteKey identifier) (clk' / 1000) 60
     (Env clk' [] (store (recordRequest identifier (fresh clk)).2))).1 =
  Return (if clk' / 1000 <=? clk / 1000 + 60 then 1 else 0).
Proof.
  rewrite countRequestsInWindow_eq, recordRequest_up by reflexivity.
  unfold counted, events_since, fresh. cbn [fst snd clock script store hd].
  destruct (Z.leb_spec (clk' / 1000) (clk / 1000 + 60)) as [Hin | Hout].
  - rewrite events_recorded_minute
      by (unfold WINDOWS.MINUTE; Z.div_mod_to_equations; lia).
    rewrite map_filter_id.
    + rewrite map_size_insert_None; [reflexivity |].
      unfold events, live, expired. cbn. apply lookup_empty.
    + intros k s Hk. apply lookup_insert_Some in Hk.
      destruct Hk as [[_ <-] | [_ Hk]]; [simpl; lia |].
      unfold events, live, expired in Hk. cbn in Hk.
      rewrite lookup_empty in Hk. discriminate.
  - destruct (Z.le_gt_cases clk' (clk + 1000 * (WINDOWS.MINUTE * 2))) as [Hlive | Hgone].
    + rewrite events_recorded_minute by exact Hlive.
      rewrite map_filter_insert_False by (simpl; lia).
      rewrite map_filter_delete.
      replace (events clk empty_db (minuteKey identifier)) with (∅ : zset) by reflexivity.
      rewrite map_filter_empty, delete_empty. reflexivity.
    + rewrite events_recorded_minute_late by lia.
      rewrite map_filter_empty. reflexivity.
Qed.

(** Two requests recorded at the same millisecond leave what one leaves:
    the member of an event is the clock reading, so the second request
    writes over the first and the two count as one. *)
Theorem recordRequest_same_millisecond identifier clk d clk' :
  let once := store (recordRequest identifier (Env clk [] d)).2 in
  let twice :=
    store ((_ <- recordRequest identifier ;; recordRequest identifier) (Env clk [] d)).2 in
  events clk' twice (minuteKey identifier) = events clk' once (minuteKey identifier) ∧
  events clk' twice (dayKey identifier) = events clk' once (dayKey identifier).
Proof.
  cbv zeta. unfold bind.
  rewrite (recordRequest_up identifier (Env clk [] d)) by reflexivity.
  cbn [clock script store drop].
  rewrite recordRequest_up by reflexivity. cbn [snd clock script store].
  split.
  - destruct (Z.le_gt_cases clk' (clk + 1000 * (WINDOWS.MINUTE * 2))) as [Hlive | Hgone].
    + rewrite (events_recorded_minute clk identifier (recorded clk identifier d))
        by exact Hlive.
      rewrite (events_recorded_minute clk identifier d clk) by (unfold WINDOWS.MINUTE; lia).
      rewrite (events_recorded_minute clk identifier d clk') by exact Hlive.
      apply insert_insert_eq.
    + rewrite !events_recorded_minute_late by exact Hgone. reflexivity.
  - destruct (Z.le_gt_cases clk' (clk + 1000 * (WINDOWS.DAY * 2))) as [Hlive | Hgone].
    + rewrite (events_recorded_day clk identifier (recorded clk identifier d))
        by exact Hlive.
      rewrite (events_recorded_day clk identifier d clk) by (unfold WINDOWS.DAY; lia).
      rewrite (events_recorded_day clk identifier d clk') by exact Hlive.
      apply insert_insert_eq.
    + rewrite !events_recorded_day_late by exact Hgone. reflexivity.
Qed.

(** The limit is enforced: four requests of an identity recorded at four
    different milliseconds, on any store and with the connection in order,
    and a check while the first of them is still in the minute window: the
    check denies for the minute limit. *)
Theorem four_recorded_then_denied identifier clk d t1 t2 t3 t4 t :
  t1 < t2 < t3 ∧ t3 < t4 ≤ t →
  t / 1000 - 60 ≤ t1 / 1000 →
  ∃ dec,
    (run_calls [(t1, record identifier); (t2, record identifier);
                (t3, record identifier); (t4, record identifier);
                (t, check identifier)] (Env clk [] d)).1
      = Return [None; None; None; None; Some dec] ∧
    allowed dec = false ∧ reason dec = Some "rate_limit".
Proof.
  intros Hord Hwin.
  cbn [run_calls]. unfold bind, at_time. cbn [script store].
  rewrite recordRequest_up by reflexivity. cbn [clock script store drop].
  rewrite recordRequest_up by reflexivity. cbn [clock script store drop].
  rewrite recordRequest_up by reflexivity. cbn [clock script store drop].
  rewrite recordRequest_up by reflexivity. cbn [clock script store drop].
  set (d4 := recorded t4 identifier _).
  destruct (checkRateLimit_denies identifier (Env t [] d4)) as [s [_ Hrun]].
  - reflexivity.
  - cbn [clock store]. unfold events_since, d4.
    assert (Hlim : t ≤ t1 + 1000 * (WINDOWS.MINUTE * 2))
      by (unfold WINDOWS.MINUTE; Z.div_mod_to_equations; lia).
    rewrite !events_recorded_minute by lia.
    set (m0 := events t1 d (minuteKey identifier)).
    set (P := λ p : string * Z, t / 1000 - 60 ≤ p.2).
    pose (four := <[pretty t4 := t4 / 1000]> (<[pretty t3 := t3 / 1000]>
                    (<[pretty t2 := t2 / 1000]> (<[pretty t1 := t1 / 1000]> (∅ : zset))))).
    assert (Hsub : filter P four ⊆ filter P
              (<[pretty t4 := t4 / 1000]> (<[pretty t3 := t3 / 1000]>
                 (<[pretty t2 := t2 / 1000]> (<[pretty t1 := t1 / 1000]> m0))))).
    { apply map_filter_subseteq_mono. unfold four.
      do 4 apply insert_mono. apply map_empty_subseteq. }
    apply map_subseteq_size in Hsub.
    assert (Hfour : size (filter P four) = 4%nat).
    { rewrite map_filter_id.
      - unfold four.
        rewrite !map_size_insert_None; [rewrite map_size_empty; reflexivity | ..];
          rewrite ?lookup_insert_ne by (intros H; apply (inj pretty) in H; lia);
          apply lookup_empty.
      - intros k s Hk. unfold four in Hk. unfold P. simpl.
        repeat (apply lookup_insert_Some in Hk;
                destruct Hk as [[_ <-] | [_ Hk]];
                [Z.div_mod_to_equations; lia |]).
        rewrite lookup_empty in Hk. discriminate. }
    lia.
  - destruct (checkRateLimit identifier (Env t [] d4)) as [[dec | x] e'] eqn:Hc;
      cbn [fst] in Hrun; [| discriminate].
    injection Hrun as ->. eexists. split; [reflexivity |]. split; reflexivity.
Qed.

Lemma four_recorded_then_denied_witness :
  ∃ dec,
    (run_calls [(1700000000000, record "10.0.0.5"); (1700000010000, record "10.0.0.5");
                (1700000020000, record "10.0.0.5"); (1700000030000, record "10.0.0.5");
                (1700000035000, check "10.0.0.5")] (Env 0 [] empty_db)).1
      = Return [None; None; None; None; Some dec] ∧
    allowed dec = false ∧ reason dec = Some "rate_limit".
Proof.
  apply (four_recorded_then_denied "10.0.0.5" 0 empty_db); [lia |].
  vm_compute. discriminate.
Defined.

(** * Reconnecting *)

(** The strategy gives up after more than ten retries; until then the
    wait is a hundred milliseconds per retry, at most a second: the cap of
    3000 milliseconds is never what it returns. *)
Theorem reconnectStrategy_delay (retries : Z) :
  match reconnectStrategy retries with
  | RetryAfter ms => retries ≤ 10 ∧ ms = retries * 100 ∧ ms ≤ 1000
  | StopWith _ => 10 < retries
  end.
Proof.
  unfold reconnectStrategy. destruct (Z.ltb_spec 10 retries); [assumption |].
  repeat split; lia.
Qed.

(** * More on the identity of a client *)

Lemma no_comma_app a b : no_comma (a +:+ b) ↔ no_comma a ∧ no_comma b.
Proof.
  induction a as [| c a IH].
  - rewrite string_app_nil. simpl. tauto.
  - rewrite string_app_cons. simpl. tauto.
Qed.

Lemma trimStart_fixed s : ¬ space_at (first_char s) → trimStart s = s.
Proof.
  destruct s as [| c r]; [reflexivity |]. simpl.
  destruct (is_space c); [intros H; exfalso; apply H; exact I | reflexivity].
Qed.

Lemma trimEnd_cons c r :
  trimEnd (String c r) =
  match trimEnd r with
  | EmptyString => if is_space c then EmptyString else String c EmptyString
  | r' => String c r'
  end.
Proof. reflexivity. Qed.

Lemma trimEnd_fixed s : ¬ space_at (last_char s) → trimEnd s = s.
Proof.
  induction s as [| c r IH]; [reflexivity |].
  destruct r as [| c' r'].
  - simpl. destruct (is_space c); [intros H; exfalso; apply H; exact I | reflexivity].
  - intros H. change (last_char (String c (String c' r'))) with (last_char (String c' r')) in H.
    rewrite trimEnd_cons, (IH H). reflexivity.
Qed.

(** [trim] leaves a trimmed string as it is. *)
Theorem trim_idempotent s : trim (trim s) = trim s.
Proof.
  destruct (trim_spec s) as [_ [Hfirst Hlast]].
  unfold trim at 1. rewrite (trimStart_fixed _ Hfirst). apply trimEnd_fixed, Hlast.
Qed.

(** When [x-forwarded-for] is present and not empty the identity comes
    from it alone, whatever the other sources say; it holds no comma and
    neither begins nor ends with a space character. *)
Theorem getClientIdentifier_forwarded_only req f :
  headers req !! "x-forwarded-for" = Some f → f ≠ "" →
  getClientIdentifier req =
    getClientIdentifier (Request {[ "x-forwarded-for" := f ]} None (Connection None)) ∧
  no_comma (getClientIdentifier req) ∧
  ¬ space_at (first_char (getClientIdentifier req)) ∧
  ¬ space_at (last_char (getClientIdentifier req)).
Proof.
  intros Hf Hne. unfold getClientIdentifier. cbn [headers].
  rewrite Hf, lookup_singleton_eq.
  assert (Ht : truthy (Some f) = true) by (destruct f; [contradiction | reflexivity]).
  rewrite Ht. cbn [default]. split; [reflexivity |].
  destruct (split_hd f) as [Hno _].
  destruct (trim_spec (hd "" (split "," f))) as [[pre [post [Heq _]]] [Hfirst Hlast]].
  split; [| split; assumption].
  rewrite Heq in Hno. apply no_comma_app in Hno. destruct Hno as [_ Hno].
  apply no_comma_app in Hno. apply Hno.
Qed.

Lemma getClientIdentifier_forwarded_only_witness :
  getClientIdentifier
    (Request {[ "x-forwarded-for" := " 203.0.113.7 , 10.0.0.1"; "x-real-ip" := "10.0.0.9" ]}
             (Some "10.0.0.2") (Connection (Some "10.0.0.3")))
  = "203.0.113.7".
Proof.
  assert (Hf : headers
                 (Request {[ "x-forwarded-for" := " 203.0.113.7 , 10.0.0.1";
                             "x-real-ip" := "10.0.0.9" ]}
                          (Some "10.0.0.2") (Connection (Some "10.0.0.3")))
                 !! "x-forwarded-for" = Some " 203.0.113.7 , 10.0.0.1")
    by (vm_compute; reflexivity).
  rewrite (proj1 (getClientIdentifier_forwarded_only _ _ Hf ltac:(discriminate))).
  vm_compute. reflexivity.
Defined.

Lemma all_space_no_comma ws : all_space ws → no_comma ws.
Proof.
  induction ws as [| c r IH]; [trivial |]. simpl. intros [Hc Hr].
  split; [| apply IH, Hr]. intros ->. vm_compute in Hc. exact Hc.
Qed.

Lemma split_first tok rest :
  no_comma tok → hd "" (split "," (tok +:+ String "," rest)) = tok.
Proof.
  induction tok as [| c r IH]; intros Hno.
  - rewrite string_app_nil. reflexivity.
  - destruct Hno as [Hc Hr]. rewrite string_app_cons. cbn [split].
    destruct (Ascii.eqb_spec c ","%char) as [-> | _]; [contradiction |].
    specialize (IH Hr).
    destruct (split "," (r +:+ String "," rest)) as [| x xs]; cbn [hd] in *;
      [subst r |]; congruence.
Qed.

Lemma trimStart_all_space ws : all_space ws → trimStart ws = "".
Proof.
  induction ws as [| c r IH]; [reflexivity |]. simpl. intros [Hc Hr].
  destruct (is_space c); [apply IH, Hr | contradiction].
Qed.

(** A forwarded header whose first token is blank gives the empty string
    as identity: the other sources are not asked. *)
Theorem getClientIdentifier_blank_first_token req ws rest :
  all_space ws →
  headers req !! "x-forwarded-for" = Some (ws +:+ String "," rest) →
  getClientIdentifier req = "".
Proof.
  intros Hws Hf. unfold getClientIdentifier. rewrite Hf.
  assert (Ht : truthy (Some (ws +:+ String "," rest)) = true)
    by (destruct ws; reflexivity).
  rewrite Ht. cbn [from_option id].
  rewrite split_first by (apply all_space_no_comma, Hws).
  unfold trim. rewrite trimStart_all_space by exact Hws. reflexivity.
Qed.

Lemma getClientIdentifier_blank_first_token_witness :
  getClientIdentifier
    (Request {[ "x-forwarded-for" := " , 10.0.0.1"; "x-real-ip" := "10.0.0.9" ]}
             (Some "10.0.0.2") (Connection (Some "10.0.0.3")))
  = "".
Proof.
  apply (getClientIdentifier_blank_first_token _ " " " 10.0.0.1").
  - split; [vm_compute; exact I | exact I].
  - vm_compute. reflexivity.
Defined.

(** Without a forwarded header the identity is never the empty string. *)
Theorem getClientIdentifier_not_empty req :
  truthy (headers req !! "x-forwarded-for") = false →
  getClientIdentifier req ≠ "".
Proof.
  intros Hf. unfold getClientIdentifier, js_or. rewrite Hf.
  destruct (headers req !! "x-real-ip") as [[| ? ?] |],
           (ip req) as [[| ? ?] |],
           (remoteAddress (connection_of req)) as [[| ? ?] |];
    cbn; discriminate.
Qed.

Lemma getClientIdentifier_not_empty_witness :
  getClientIdentifier (Request ∅ (Some "") (Connection None)) ≠ "".
Proof. apply getClientIdentifier_not_empty. reflexivity. Defined.

(** * The request handlers *)

Lemma checkRateLimit_returns identifier e :
  ∃ dec k, checkRateLimit identifier e = (Return dec, advance k e).
Proof.
  rewrite checkRateLimit_eq. cbv zeta.
  destruct (LIMITS.PER_MINUTE <=? _); eauto.
Qed.

Lemma events_since_empty clk d key cutoff :
  events clk d key = ∅ → events_since clk d key cutoff = 0.
Proof.
  unfold events_since. intros ->. rewrite map_filter_empty, map_size_empty. reflexivity.
Qed.

Lemma checkRateLimit_no_events identifier e :
  events (clock e) (store e) (minuteKey identifier) = ∅ →
  events (clock e) (store e) (dayKey identifier) = ∅ →
  checkRateLimit identifier e = (Return allow_decision, advance 2 e).
Proof.
  intros Hm Hd. rewrite checkRateLimit_eq. cbv zeta. unfold counted.
  change (clock (advance 1 e)) with (clock e).
  change (store (advance 1 e)) with (store e).
  rewrite !events_since_empty by assumption.
  destruct (hd Up (script e)), (hd Up (script (advance 1 e))); reflexivity.
Qed.

Lemma limited_effect req vt e :
  ∃ resp e', limited req vt e = (Return resp, e') ∧
             untouched_or_undefined (store e) (store e').
Proof.
  unfold limited, bind.
  destruct (checkRateLimit_returns (getClientIdentifier req) e) as [dec [k ->]].
  destruct (allowed dec); cbn [negb].
  - destruct vt as [| status readable].
    + eexists _, _. split; [reflexivity | left; reflexivity].
    + destruct (ok status); cbn [negb].
      * rewrite recordRequest_eq.
        destruct readable; eexists _, _; (split; [reflexivity |]);
          right; eexists _, _; reflexivity.
      * destruct readable; cbn [negb]; [destruct (status =? 429) |];
          eexists _, _; (split; [reflexivity | left; reflexivity]).
  - eexists _, _. split; [reflexivity | left; reflexivity].
Qed.

Lemma serve_effect r e :
  ∃ resp e', serve r e = (Return resp, e') ∧
             untouched_or_undefined (store e) (store e').
Proof.
  destruct r as [req url vt | req id vt]; cbn [serve]; unfold scan, analysis, try_catch.
  - destruct (truthy url); cbn [negb].
    + destruct (limited_effect req vt e) as [resp [e' [-> Hst]]]. eauto.
    + eexists _, _. split; [reflexivity | left; reflexivity].
  - destruct (truthy id); cbn [negb].
    + destruct (limited_effect req vt e) as [resp [e' [-> Hst]]]. eauto.
    + eexists _, _. split; [reflexivity | left; reflexivity].
Qed.

(** The scanning handlers never write under the keys of the client they
    serve, unless its identity is "undefined": whatever the request, the
    reply of VirusTotal and the condition of the connection, every key but
    the two of "undefined" holds after the handler what it held before. *)
Theorem handlers_record_under_undefined r e key clk' :
  key ≠ minuteKey "undefined" → key ≠ dayKey "undefined" →
  live clk' (store (serve r e).2) key = live clk' (store e) key.
Proof.
  intros Hm Hd. destruct (serve_effect r e) as [resp [e' [Hrun Hst]]].
  rewrite Hrun. cbn [snd]. destruct Hst as [-> | [ls [clk ->]]]; [reflexivity |].
  apply recorded_under_other; assumption.
Qed.

Lemma handlers_record_under_undefined_witness :
  let req := Request ∅ (Some "10.0.0.5") (Connection None) in
  let e := fresh 1700000000000 in
  (serve (to_scan req (Some "http://example.com") (Reply 200 true)) e).1
    = Return (Response 200 success) ∧
  live 1700000001000
       (store (serve (to_scan req (Some "http://example.com") (Reply 200 true)) e).2)
       (minuteKey "10.0.0.5") = None.
Proof.
  cbv zeta. split; [vm_compute; reflexivity |].
  rewrite handlers_record_under_undefined.
  - reflexivity.
  - intros H. apply minuteKey_inj in H. discriminate.
  - apply minuteKey_dayKey_ne.
Defined.

Lemma client_keys_other identifier :
  identifier ≠ "undefined" →
  minuteKey identifier ≠ minuteKey "undefined" ∧
  minuteKey identifier ≠ dayKey "undefined" ∧
  dayKey identifier ≠ minuteKey "undefined" ∧
  dayKey identifier ≠ dayKey "undefined".
Proof.
  intros Hne. repeat split.
  - intros H. apply minuteKey_inj in H. contradiction.
  - apply minuteKey_dayKey_ne.
  - apply not_eq_sym, minuteKey_dayKey_ne.
  - intros H. apply dayKey_inj in H. contradiction.
Qed.

Lemma limited_not_limited req vt e :
  getClientIdentifier req ≠ "undefined" → only_undefined (store e) →
  ∃ resp e', limited req vt e = (Return resp, e') ∧ not_limited resp.
Proof.
  intros Hne Hinv. unfold limited, bind.
  destruct (client_keys_other _ Hne) as [Hmm [Hmd [Hdm Hdd]]].
  rewrite checkRateLimit_no_events
    by (unfold events; rewrite Hinv by assumption; reflexivity).
  cbn [allowed allow_decision negb].
  destruct vt as [| status readable]; [eexists _, _; split; [reflexivity | exact I] |].
  destruct (ok status); cbn [negb].
  - rewrite recordRequest_eq.
    destruct readable; eexists _, _; (split; [reflexivity | exact I]).
  - destruct readable; cbn [negb]; [destruct (status =? 429) |];
      eexists _, _; (split; [reflexivity | exact I]).
Qed.

Lemma serve_not_limited r e :
  client_of r ≠ "undefined" → only_undefined (store e) →
  ∃ resp e', serve r e = (Return resp, e') ∧ not_limited resp.
Proof.
  intros Hne Hinv.
  destruct r as [req url vt | req id vt]; cbn [serve client_of] in *;
    unfold scan, analysis, try_catch.
  - destruct (truthy url); cbn [negb].
    + destruct (limited_not_limited req vt e Hne Hinv) as [resp [e' [-> Hnl]]]. eauto.
    + eexists _, _. split; [reflexivity | exact I].
  - destruct (truthy id); cbn [negb].
    + destruct (limited_not_limited req vt e Hne Hinv) as [resp [e' [-> Hnl]]]. eauto.
    + eexists _, _. split; [reflexivity | exact I].
Qed.

Lemma only_undefined_kept d d' :
  only_undefined d → untouched_or_undefined d d' → only_undefined d'.
Proof.
  intros Hinv [-> | [ls [clk ->]]]; [exact Hinv |].
  intros key clk' Hm Hd. rewrite recorded_under_other by assumption.
  apply Hinv; assumption.
Qed.

(** The limiter never limits through the handlers.  Starting from a store
    in which no identity but "undefined" has events, requests to the two
    scanning handlers, in any number, at any times, by clients of any
    identity but "undefined", whatever VirusTotal replies and whatever the
    condition of the connection: every one is answered, none with the
    limiter's denial, and afterwards still no identity but "undefined" has
    events. *)
Theorem handlers_never_limit rs e :
  only_undefined (store e) →
  Forall (λ tr : Z * served, client_of tr.2 ≠ "undefined") rs →
  ∃ resps e', serve_all rs e = (Return resps, e') ∧
              length resps = length rs ∧
              Forall not_limited resps ∧
              only_undefined (store e').
Proof.
  revert e. induction rs as [| [t r] rs IH]; intros e Hinv Hcl.
  - exists [], e. repeat split; [constructor | exact Hinv].
  - apply Forall_cons in Hcl. destruct Hcl as [Hr Hrs]. cbn [snd] in Hr.
    cbn [serve_all]. unfold bind at 1. unfold at_time.
    set (et := Env t (script e) (store e)).
    destruct (serve_not_limited r et Hr Hinv) as [resp [e1 [Hrun Hnl]]].
    destruct (serve_effect r et) as [resp' [e1' [Hrun' Hst]]].
    rewrite Hrun in Hrun'. injection Hrun' as <- <-.
    rewrite Hrun.
    destruct (IH e1 (only_undefined_kept _ _ Hinv Hst) Hrs)
      as [resps [e' [Hall [Hlen [Hnls Hinv']]]]].
    unfold bind. rewrite Hall. exists (resp :: resps), e'.
    split; [reflexivity |]. split; [cbn; congruence |].
    split; [constructor; assumption | exact Hinv'].
Qed.

Lemma handlers_never_limit_witness :
  let req := Request {[ "x-forwarded-for" := "10.0.0.5" ]} None (Connection None) in
  let one := to_scan req (Some "http://example.com") (Reply 200 true) in
  ∃ resps e',
    serve_all [(1700000000000, one); (1700000001000, one); (1700000002000, one);
               (1700000003000, one); (1700000004000, one); (1700000005000, one)]
              (fresh 0) = (Return resps, e') ∧
    length resps = 6%nat ∧ Forall not_limited resps ∧ only_undefined (store e').
Proof.
  cbv zeta. apply handlers_never_limit.
  - intros key clk _ _. reflexivity.
  - repeat constructor; cbn [snd client_of]; vm_compute; discriminate.
Defined.

(** A request the limiter denies is answered 429 with the message, the
    reason, the wait and the reset time of the denial; VirusTotal's reply
    plays no part and the store stays as it was. *)
Theorem scan_denied req url vt e dec :
  truthy url = true →
  (checkRateLimit (getClientIdentifier req) e).1 = Return dec →
  allowed dec = false →
  (scan req url vt e).1 =
    Return (Response 429 (rate_limit_exceeded (message dec) (reason dec) (waitTime dec)
                            (resetTime dec))) ∧
  store (scan req url vt e).2 = store e.
Proof.
  intros Hurl Hrun Hden. unfold scan, try_catch, limited, bind.
  rewrite Hurl. cbn [negb].
  destruct (checkRateLimit_returns (getClientIdentifier req) e) as [dec' [k Hc]].
  rewrite Hc in Hrun |- *. cbn [fst] in Hrun. injection Hrun as ->.
  rewrite Hden. cbn [negb]. split; reflexivity.
Qed.

Lemma scan_denied_witness :
  let req := Request {[ "x-forwarded-for" := "10.0.0.5" ]} None (Connection None) in
  (scan req (Some "http://example.com") Unreachable
     (Env 1700000035000 [] burst_store)).1 =
  Return (Response 429
            (rate_limit_exceeded
               (Some "Rate limit exceeded. Please wait 25 seconds before trying again.")
               (Some "rate_limit") (Some 25) None)).
Proof.
  cbv zeta.
  refine (proj1 (scan_denied
                   (Request {[ "x-forwarded-for" := "10.0.0.5" ]} None (Connection None))
                   (Some "http://example.com") Unreachable
                   (Env 1700000035000 [] burst_store) (rate_limit_decision 25)
                   eq_refl _ eq_refl)).
  vm_compute. reflexivity.
Defined.

(** * The browser side *)

(** More detections never lower the risk. *)
Theorem classifyRisk_monotone (a b : VirusTotalAPI.stats) :
  VirusTotalAPI.stats_malicious a ≤ VirusTotalAPI.stats_malicious b →
  VirusTotalAPI.stats_suspicious a ≤ VirusTotalAPI.stats_suspicious b →
  VirusTotalAPI.severity (VirusTotalAPI.classifyRisk a)
    ≤ VirusTotalAPI.severity (VirusTotalAPI.classifyRisk b).
Proof.
  intros Hm Hs. unfold VirusTotalAPI.classifyRisk.
  destruct (Z.ltb_spec 0 (VirusTotalAPI.stats_malicious a)),
           (Z.ltb_spec 0 (VirusTotalAPI.stats_malicious b)),
           (Z.ltb_spec 3 (VirusTotalAPI.stats_suspicious a)),
           (Z.ltb_spec 3 (VirusTotalAPI.stats_suspicious b)); simpl; lia.
Qed.

Lemma classifyRisk_monotone_witness :
  VirusTotalAPI.severity (VirusTotalAPI.classifyRisk (VirusTotalAPI.Stats 0 4))
    ≤ VirusTotalAPI.severity (VirusTotalAPI.classifyRisk (VirusTotalAPI.Stats 1 4)).
Proof. apply classifyRisk_monotone; simpl; lia. Defined.

(** The list of threats has at most seven lines: a count and five
    engines for the malicious findings, a count for the suspicious ones,
    whose engines are listed only when nothing is malicious; for the level
    [safe] the list is empty. *)
Theorem extractThreats_length results level :
  (length (VirusTotalAPI.extractThreats results level) ≤ 7)%nat ∧
  VirusTotalAPI.extractThreats results VirusTotalAPI.safe = [].
Proof.
  split; [| reflexivity].
  unfold VirusTotalAPI.extractThreats. destruct level; [simpl; lia | |];
    cbv zeta;
    set (mal := VirusTotalAPI.describe <$> filter _ results);
    set (sus := VirusTotalAPI.describe <$> filter _ results);
    rewrite length_app;
    destruct (Nat.ltb_spec 0 (length mal)), (Nat.ltb_spec 0 (length sus)),
             (Nat.eqb_spec (length mal) 0);
    cbn [length]; rewrite ?length_take; lia.
Qed.

(** After [normalizeURL] an address begins with [http://] or [https://],
    in any mix of upper and lower case, and a second [normalizeURL] changes
    nothing. *)
Theorem normalizeURL_idempotent url :
  ScannerUI.has_scheme (ScannerUI.normalizeURL url) = true ∧
  ScannerUI.normalizeURL (ScannerUI.normalizeURL url) = ScannerUI.normalizeURL url.
Proof.
  assert (Hs : ScannerUI.has_scheme (ScannerUI.normalizeURL url) = true).
  { unfold ScannerUI.normalizeURL.
    destruct (ScannerUI.has_scheme url) eqn:Hurl; cbn [negb]; [exact Hurl |].
    unfold ScannerUI.has_scheme. apply orb_true_iff. right. reflexivity. }
  split; [exact Hs |].
  unfold ScannerUI.normalizeURL at 1. rewrite Hs. reflexivity.
Qed.

(** The status handler always answers 200 with a status report that
    carries no [error], after two [kv] calls and with the store as it was:
    neither of its two ways of reporting a failure (the [error] property of
    the report, the answer 500) is ever taken. *)
Theorem rate_limit_status_answers req e :
  ∃ st, rate_limit_status req e = (Return (Response 200 (status_report st)), advance 2 e) ∧
        error st = None.
Proof.
  unfold rate_limit_status, try_catch, bind.
  rewrite getRateLimitStatus_eq. cbv zeta. eexists. split; reflexivity.
Qed.
